(** * A peer-to-peer blockchain node: the session engine and the full node

    Shallow embedding of [src/nodes.py] -- the classes [Node] and
    [BlockchainNode] and the method [MinerNode.proof_of_work] -- and the
    properties of the protocol engine they implement.

    Modelling decisions, fixed here once:
    - Python objects decoded from the wire are values of [json]; numbers
      are integers (the protocol carries heights, indices and proofs).
    - A [str] that the code hands to [json.loads] is represented by what the
      parser makes of it ([text]), and a datagram by what
      [json.loads(packet.decode())] makes of it ([packet]): a decoding
      error, or an envelope with its four fields [type], [identifier],
      [message], [target], the three routing fields being strings.
      Datagrams that decode to any other JSON value are not inputs of the
      model.
    - Python exceptions are outcomes of a state-and-exception monad in which
      the mutations made before the [raise] stay in the state.
    - [time()] is the next reading of a clock, in whole seconds since the
      epoch; each call consumes one reading.
    - [self.network.send] appends the frame to the node's [outbox].
    - [self.peers] is a finite set and [self.peer_info] a finite map; a
      [for] loop over either visits [elements] or [map_to_list] of it. *)

From stdpp Require Import gmap strings list fin_maps pretty.
From Stdlib Require Import Ascii ZArith Lia.

Local Open Scope string_scope.
Local Open Scope Z_scope.

(** ** Values *)

#[local] Set Warnings "-register-all".

Inductive json : Type :=
| JNull
| JBool (b : bool)
| JNum (z : Z)
| JStr (s : string)
| JList (l : list json)
| JDict (d : list (string * json)).

(** A [str] about to be parsed: the empty string (which the handlers test
    for before parsing), a non-empty string [json.loads] rejects, or the
    rendering ([json.dumps]) of a value. *)
Inductive text : Type :=
| Blank
| Malformed
| Denotes (j : json).

(** The envelope [{'type', 'identifier', 'message', 'target'}]; the fields
    carry the names the handlers bind them to. *)
Record envelope : Type := Envelope {
  msg_type : string;
  sender : string;
  message : text;
  target : string
}.

Inductive packet : Type :=
| Undecodable
| Data (data : envelope).

Inductive exn : Type :=
| KeyError
| TypeError
| AttributeError
| JSONDecodeError.

(** One entry of [self.peer_info]. *)
Record peer : Type := Peer {
  peer_identifier : string;
  lastrecv : N;
  lastsend : N;
  height : json
}.

(** The two classes whose [handle_data] is embedded. *)
Inductive node_class : Type :=
| Node
| BlockchainNode.

Record node : Type := MkNode {
  identifier : string;
  chain : list json;
  tx_info : list (string * json);
  peer_info : gmap string peer;
  peers : gset string;
  keep_listening : bool;
  ready : bool;
  synced : bool;
  outbox : list envelope;
  ticks : nat
}.

#[global] Instance exn_eq_dec : EqDecision exn.
Proof. solve_decision. Defined.

(** ** Dictionaries and Python's operators on decoded values *)

Fixpoint assoc (k : string) (d : list (string * json)) : option json :=
  match d with
  | [] => None
  | (k', v) :: d' => if String.eqb k k' then Some v else assoc k d'
  end.

Fixpoint dict_set (k : string) (v : json) (d : list (string * json))
  : list (string * json) :=
  match d with
  | [] => [(k, v)]
  | (k', v') :: d' =>
      if String.eqb k k' then (k', v) :: d' else (k', v') :: dict_set k v d'
  end.

(** [{**a, **b}] on two dicts. *)
Definition dict_merge (a b : list (string * json)) : list (string * json) :=
  fold_left (fun acc kv => dict_set kv.1 kv.2 acc) b a.

(** [obj[k]] with a string key. *)
Definition getitem (k : string) (obj : json) : exn + json :=
  match obj with
  | JDict d => match assoc k d with Some v => inr v | None => inl KeyError end
  | _ => inl TypeError
  end.

(** [obj.get(k)]. *)
Definition get (k : string) (obj : json) : exn + json :=
  match obj with
  | JDict d => inr (default JNull (assoc k d))
  | _ => inl AttributeError
  end.

(** [len(obj)]. *)
Definition len (obj : json) : exn + Z :=
  match obj with
  | JList l => inr (Z.of_nat (length l))
  | JDict d => inr (Z.of_nat (length d))
  | JStr s => inr (Z.of_nat (String.length s))
  | _ => inl TypeError
  end.

(** The integer a value compares as against an [int], when it has one. *)
Definition as_int (obj : json) : exn + Z :=
  match obj with
  | JNum z => inr z
  | JBool b => inr (Z.b2z b)
  | _ => inl TypeError
  end.

(** The idle test of the sweep: [info['lastsend'] - info['lastrecv'] > 60*30]. *)
Definition idle (info : peer) : bool :=
  60 * 30 <? Z.of_N (lastsend info) - Z.of_N (lastrecv info).

(** ** The monad of a method call on a node *)

Inductive outcome (A : Type) : Type :=
| Returns (a : A)
| Raises (e : exn).
Arguments Returns {A} a.
Arguments Raises {A} e.

Definition M (A : Type) : Type := node -> outcome A * node.

Definition ret {A} (a : A) : M A := fun st => (Returns a, st).

Definition raise {A} (e : exn) : M A := fun st => (Raises e, st).

Definition bind {A B} (m : M A) (k : A -> M B) : M B :=
  fun st =>
    match m st with
    | (Returns a, st') => k a st'
    | (Raises e, st') => (Raises e, st')
    end.

Definition gets {A} (f : node -> A) : M A := fun st => (Returns (f st), st).

Definition modify (f : node -> node) : M unit := fun st => (Returns tt, f st).

Definition lift {A} (r : exn + A) : M A :=
  match r with
  | inl e => raise e
  | inr a => ret a
  end.

Declare Scope py_scope.
Delimit Scope py_scope with py.
Notation "'do' x <- c1 ; c2" := (bind c1 (fun x => c2))
  (at level 10, x name, c1 at level 100, c2 at level 200) : py_scope.
Notation "c1 >> c2" := (bind c1 (fun _ => c2))
  (at level 62, right associativity) : py_scope.
Local Open Scope py_scope.

Fixpoint for_each {A} (l : list A) (body : A -> M unit) : M unit :=
  match l with
  | [] => ret tt
  | x :: l' => body x >> for_each l' body
  end.

(** ** Field updates *)

Definition set_chain (c : list json) (st : node) : node :=
  MkNode (identifier st) c (tx_info st) (peer_info st) (peers st)
    (keep_listening st) (ready st) (synced st) (outbox st) (ticks st).

Definition set_tx_info (t : list (string * json)) (st : node) : node :=
  MkNode (identifier st) (chain st) t (peer_info st) (peers st)
    (keep_listening st) (ready st) (synced st) (outbox st) (ticks st).

Definition set_peer_info (m : gmap string peer) (st : node) : node :=
  MkNode (identifier st) (chain st) (tx_info st) m (peers st)
    (keep_listening st) (ready st) (synced st) (outbox st) (ticks st).

Definition set_peers (s : gset string) (st : node) : node :=
  MkNode (identifier st) (chain st) (tx_info st) (peer_info st) s
    (keep_listening st) (ready st) (synced st) (outbox st) (ticks st).

Definition set_ready (b : bool) (st : node) : node :=
  MkNode (identifier st) (chain st) (tx_info st) (peer_info st) (peers st)
    (keep_listening st) b (synced st) (outbox st) (ticks st).

Definition set_synced (b : bool) (st : node) : node :=
  MkNode (identifier st) (chain st) (tx_info st) (peer_info st) (peers st)
    (keep_listening st) (ready st) b (outbox st) (ticks st).

Definition set_outbox (o : list envelope) (st : node) : node :=
  MkNode (identifier st) (chain st) (tx_info st) (peer_info st) (peers st)
    (keep_listening st) (ready st) (synced st) o (ticks st).

Definition set_ticks (n : nat) (st : node) : node :=
  MkNode (identifier st) (chain st) (tx_info st) (peer_info st) (peers st)
    (keep_listening st) (ready st) (synced st) (outbox st) n.

Definition with_lastsend (t : N) (info : peer) : peer :=
  Peer (peer_identifier info) (lastrecv info) t (height info).

Definition with_lastrecv (t : N) (info : peer) : peer :=
  Peer (peer_identifier info) t (lastsend info) (height info).

Definition with_height (h : json) (info : peer) : peer :=
  Peer (peer_identifier info) (lastrecv info) (lastsend info) h.

(** [self.peer_info[key][field] = value], as an update [f] of the entry. *)
Definition update_peer (key : string) (f : peer -> peer) : M unit :=
  do info <- gets peer_info;
  match info !! key with
  | Some p => modify (set_peer_info (<[key := f p]> info))
  | None => raise KeyError
  end.

(** [json.loads(data['message']) if data['message'] else {}]. *)
Definition loads_message (m : text) : M json :=
  match m with
  | Blank => ret (JDict [])
  | Malformed => raise JSONDecodeError
  | Denotes j => ret j
  end.

(** ** The validator

    The section that starts here runs to the end of the general theory: the
    validator, the node and the theorems share its parameters.

    [blockchain.py], which defines the class [Blockchain], is not part of
    the sources at hand; its static methods are modelled from section 4.1 of
    the specification.  What the specification leaves open is a variable of
    the section: the 256-bit digest, the canonical serialization of a
    header, and the two unspecified fields of the genesis block. *)

Section Engine.

#[local] Set Default Proof Using "Type".

Variable digest : string -> string.
Variable serialize : json -> string.
Variable genesis_timestamp : Z.
Variable empty_merkle_root : string.

Definition field (k : string) (obj : json) : option json :=
  match obj with
  | JDict d => assoc k d
  | _ => None
  end.

(** Modelled from the spec: [Blockchain.hash] is missing; "a cryptographic
    hash (256-bit, hex-encoded) over a canonical serialization of the header
    fields in a fixed order". *)
Definition hash (header : json) : string := digest (serialize header).

(** Modelled from the spec: [Blockchain.valid_proof] is missing; "true iff
    hash(previous_hash || proof) begins with four hex zero digits; the
    concatenation is over the decimal text of proof". *)
Definition valid_proof (previous_hash : string) (proof : Z) : bool :=
  String.prefix "0000" (digest (previous_hash ++ pretty proof)).

(** Modelled from the spec: [Blockchain.valid_block] is missing; "true iff
    block.index == previous_block.index + 1, block.previous_hash ==
    hash(previous_block.header), and valid_proof(block.previous_hash,
    block.proof) holds".  A block without these fields is not valid. *)
Definition valid_block (block previous_block : json) : bool :=
  match field "header" block, field "header" previous_block with
  | Some h, Some ph =>
      match field "index" h, field "index" ph,
            field "previous_hash" h, field "proof" h with
      | Some (JNum i), Some (JNum pi), Some (JStr prev), Some (JNum proof) =>
          (i =? pi + 1) && String.eqb prev (hash ph) && valid_proof prev proof
      | _, _, _, _ => false
      end
  | _, _ => false
  end.

(** Modelled from the spec: the genesis literal of section 6 is missing from
    the sources; "index=0, previous_hash="0", proof=100, timestamp=<fixed
    epoch>, merkle_root=<empty-body sentinel>, body=[]". *)
Definition is_genesis (block : json) : bool :=
  match field "header" block, field "body" block with
  | Some h, Some (JList []) =>
      match field "index" h, field "previous_hash" h, field "proof" h,
            field "timestamp" h, field "merkle_root" h with
      | Some (JNum i), Some (JStr prev), Some (JNum proof),
        Some (JNum ts), Some (JStr root) =>
          (i =? 0) && String.eqb prev "0" && (proof =? 100)
          && (ts =? genesis_timestamp) && String.eqb root empty_merkle_root
      | _, _, _, _, _ => false
      end
  | _, _ => false
  end.

(** [valid_block(chain[i], chain[i-1])] for the blocks after [previous]. *)
Fixpoint valid_links (previous : json) (rest : list json) : bool :=
  match rest with
  | [] => true
  | block :: rest' => valid_block block previous && valid_links block rest'
  end.

(** Modelled from the spec: [Blockchain.valid_chain] is missing; "true iff
    chain is non-empty, chain[0] is the genesis, and valid_block(chain[i],
    chain[i-1]) holds for all i >= 1". *)
Definition valid_chain (chain : json) : bool :=
  match chain with
  | JList (first :: rest) => is_genesis first && valid_links first rest
  | _ => false
  end.

(** ** Class [Node] *)

Variable clock : nat -> N.

(** [time()]. *)
Definition time : M N :=
  fun st => (Returns (clock (ticks st)), set_ticks (S (ticks st)) st).

(** [self.network.send(bytes(data, encoding))]. *)
Definition transmit (frame : envelope) : M unit :=
  modify (fun st => set_outbox (outbox st ++ [frame]) st).

Definition send (type : string) (message : text) (target : string) : M unit :=
  do self <- gets identifier;
  transmit (Envelope type self message target) >>
  if bool_decide (target = "") then
    do ps <- gets peers;
    for_each (elements ps) (fun peer =>
      do t <- time; update_peer peer (with_lastsend t))
  else
    do t <- time; update_peer target (with_lastsend t).

Definition register_peer (identifier : string) (height : json) : M bool :=
  do ps <- gets peers;
  if bool_decide (identifier ∈ ps) then ret false
  else
    modify (fun st => set_peers ({[identifier]} ∪ peers st) st) >>
    do t <- time;
    modify (fun st =>
      set_peer_info (<[identifier := Peer identifier t 0%N height]> (peer_info st)) st) >>
    ret true.

Definition Node_handle_data (data : envelope) : M unit :=
  let msg_type := msg_type data in
  let sender := sender data in
  do message <- loads_message (message data);
  (if String.eqb msg_type "version" then
     do height <- lift (get "height" message);
     do registered <- register_peer sender height;
     if registered then
       send "verack" Blank sender >>
       do c <- gets chain;
       send "version"
         (Denotes (JDict [("height", JNum (Z.of_nat (length c)))])) sender
     else ret tt
   else if String.eqb msg_type "verack" then modify (set_ready true)
   else ret tt) >>
  do r <- gets ready;
  if r then
    if String.eqb msg_type "heartbeat" then send "heartbeatack" Blank sender
    else ret tt
  else ret tt.

(** ** Class [BlockchainNode] *)

(** The loop of [resolve_conflicts] over [self.peers]. *)
Fixpoint scan_peers (ps : list string) (info : gmap string peer)
    (max_height : Z) (max_height_peer : option string)
  : exn + (Z * option string) :=
  match ps with
  | [] => inr (max_height, max_height_peer)
  | peer :: ps' =>
      match info !! peer with
      | Some peer_info =>
          match as_int (height peer_info) with
          | inl e => inl e
          | inr h =>
              if max_height <? h
              then scan_peers ps' info h (Some peer)
              else scan_peers ps' info max_height max_height_peer
          end
      | None => scan_peers ps' info max_height max_height_peer
      end
  end.

Definition resolve_conflicts : M unit :=
  do c <- gets chain;
  do ps <- gets peers;
  do info <- gets peer_info;
  do best <- lift (scan_peers (elements ps) info (Z.of_nat (length c)) None);
  match best.2 with
  | Some max_height_peer =>
      if bool_decide (max_height_peer = "") then modify (set_synced true)
      else send "getdata" Blank max_height_peer
  | None => modify (set_synced true)
  end.

(** The chain a decoded value is stored as in [self.blockchain.chain]; the
    handler stores only values [valid_chain] accepts, which are lists. *)
Definition blocks_of (chain : json) : list json :=
  match chain with
  | JList blocks => blocks
  | _ => []
  end.

(** [{**self.blockchain.tx_info, **tx_info}]. *)
Definition merge_tx_info (tx : json) : M unit :=
  match tx with
  | JDict d => modify (fun st => set_tx_info (dict_merge (tx_info st) d) st)
  | _ => raise TypeError
  end.

Fixpoint headers_of (blocks : list json) : exn + list json :=
  match blocks with
  | [] => inr []
  | block :: rest =>
      match getitem "header" block with
      | inl e => inl e
      | inr h =>
          match headers_of rest with
          | inl e => inl e
          | inr hs => inr (h :: hs)
          end
      end
  end.

Definition BlockchainNode_handle_data (data : envelope) : M unit :=
  Node_handle_data data >>
  let msg_type := msg_type data in
  let sender := sender data in
  do message <- loads_message (message data);
  if String.eqb msg_type "getdata" then
    do c <- gets chain;
    do tx <- gets tx_info;
    send "chain" (Denotes (JDict [("chain", JList c); ("tx_info", JDict tx)])) sender
  else if String.eqb msg_type "getheaders" then
    do c <- gets chain;
    do hs <- lift (headers_of c);
    send "headers" (Denotes (JDict [("headers", JList hs)])) sender
  else if String.eqb msg_type "chain" then
    do chain <- lift (getitem "chain" message);
    do tx_info <- lift (getitem "tx_info" message);
    do ps <- gets peers;
    (if bool_decide (sender ∈ ps) then
       do n <- lift (len chain);
       update_peer sender (with_height (JNum n))
     else ret tt) >>
    if valid_chain chain then
      modify (set_chain (blocks_of chain)) >>
      merge_tx_info tx_info >>
      modify (set_synced true)
    else resolve_conflicts
  else if String.eqb msg_type "addblock" then
    do new_block <- lift (getitem "block" message);
    do height <- lift (getitem "height" message);
    do tx_info <- lift (getitem "tx_info" message);
    do ps <- gets peers;
    (if bool_decide (sender ∈ ps) then update_peer sender (with_height height)
     else ret tt) >>
    do c <- gets chain;
    let chain := (c ++ [new_block])%list in
    if valid_chain (JList chain) then
      modify (set_chain chain) >> merge_tx_info tx_info
    else resolve_conflicts
  else ret tt.

Definition handle_data (cls : node_class) : envelope -> M unit :=
  match cls with
  | Node => Node_handle_data
  | BlockchainNode => BlockchainNode_handle_data
  end.

(** ** The receive path *)

(** [recv]; [handle_data] is the method of the receiver's class. *)
Definition recv (handle_data : envelope -> M unit) (packet : packet) : M unit :=
  match packet with
  | Undecodable => raise JSONDecodeError
  | Data data =>
      do self <- gets identifier;
      if negb (Nat.eqb (String.length (target data)) 0)
         && negb (String.eqb (target data) self)
      then ret tt
      else
        handle_data data >>
        let sender := sender data in
        do ps <- gets peers;
        if bool_decide (sender ∈ ps) then
          do t <- time; update_peer sender (with_lastrecv t)
        else ret tt
  end.

(** The first half of an iteration of [run]: drop the idle peers. *)
Definition sweep : M unit :=
  do info <- gets peer_info;
  let disconnected_peers :=
    (map_to_list (filter (fun kv => idle kv.2 = true) info)).*1 in
  for_each disconnected_peers (fun peer_id =>
    (do info <- gets peer_info;
     match info !! peer_id with
     | Some _ => modify (set_peer_info (delete peer_id info))
     | None => raise KeyError
     end) >>
    do ps <- gets peers;
    if bool_decide (peer_id ∈ ps) then modify (set_peers (ps ∖ {[peer_id]}))
    else raise KeyError).

(** [run] over the successive results of polling the inbound queue of the
    node's single interface: [None] is the [Empty] the loop catches,
    [Some p] a datagram.  The loop ends when [keep_listening] is cleared,
    when a call raises, or -- in the model -- when the polls run out. *)
Fixpoint run (cls : node_class) (polls : list (option packet)) : M unit :=
  match polls with
  | [] => ret tt
  | poll :: polls' =>
      do listening <- gets keep_listening;
      if listening then
        sweep >>
        match poll with
        | Some p => recv (handle_data cls) p
        | None => ret tt
        end >>
        run cls polls'
      else ret tt
  end.

(** ** [MinerNode.proof_of_work] *)

(** The [while] loop from a given [proof], cut after [fuel] iterations. *)
Fixpoint proof_of_work_from (fuel : nat) (prev_hash : string) (proof : Z)
  : option Z :=
  match fuel with
  | O => None
  | S fuel' =>
      if valid_proof prev_hash proof then Some proof
      else proof_of_work_from fuel' prev_hash (proof + 1)
  end.

Definition proof_of_work (fuel : nat) (prev_hash : string) : option Z :=
  proof_of_work_from fuel prev_hash 0.

(** ** Further methods of [Node] *)

(** [send_heartbeat]: the loop of the heartbeat thread, cut after [fuel]
    iterations; [sleep] leaves the node alone. *)
Fixpoint send_heartbeat (fuel : nat) : M unit :=
  match fuel with
  | O => ret tt
  | S fuel' =>
      do listening <- gets keep_listening;
      do r <- gets ready;
      if listening && r then
        send "heartbeat" Blank "" >> send_heartbeat fuel'
      else ret tt
  end.

(** What a call of [get_peer] comes to: the value it returns ([None] when
    the loop falls through), or the [ValueError] of [randint] on an empty
    range. *)
Inductive get_peer_outcome : Type :=
| PeerAt (p : option string)
| RaisesValueError.

(** The loop of [get_peer] from the counter [i]. *)
Fixpoint get_peer_from (ps : list string) (i index : Z) : option string :=
  match ps with
  | [] => None
  | p :: ps' => if i =? index then Some p else get_peer_from ps' (i + 1) index
  end.

(** [get_peer]; [randint] stands for the draw of [random.randint], which
    is consulted when no index is given and raises on an empty range. *)
Definition get_peer (randint : Z -> Z -> Z) (index : option Z) (st : node)
  : get_peer_outcome :=
  let ps := elements (peers st) in
  match index with
  | Some index => PeerAt (get_peer_from ps 0 index)
  | None =>
      let hi := Z.of_nat (length ps) - 1 in
      if hi <? 0 then RaisesValueError
      else PeerAt (get_peer_from ps 0 (randint 0 hi))
  end.

(** ** Class [SPVNode] *)

(** Modelled from the spec: [Blockchain.valid_headers] is missing; "same as
    valid_chain but inputs are header records only; hashing and continuity
    apply to headers directly". *)
Definition valid_header (header previous : json) : bool :=
  match field "index" header, field "index" previous,
        field "previous_hash" header, field "proof" header with
  | Some (JNum i), Some (JNum pi), Some (JStr prev), Some (JNum proof) =>
      (i =? pi + 1) && String.eqb prev (hash previous) && valid_proof prev proof
  | _, _, _, _ => false
  end.

Definition is_genesis_header (h : json) : bool :=
  match field "index" h, field "previous_hash" h, field "proof" h,
        field "timestamp" h, field "merkle_root" h with
  | Some (JNum i), Some (JStr prev), Some (JNum proof),
    Some (JNum ts), Some (JStr root) =>
      (i =? 0) && String.eqb prev "0" && (proof =? 100)
      && (ts =? genesis_timestamp) && String.eqb root empty_merkle_root
  | _, _, _, _, _ => false
  end.

Fixpoint valid_header_links (previous : json) (rest : list json) : bool :=
  match rest with
  | [] => true
  | header :: rest' =>
      valid_header header previous && valid_header_links header rest'
  end.

Definition valid_headers (headers : json) : bool :=
  match headers with
  | JList (first :: rest) => is_genesis_header first && valid_header_links first rest
  | _ => false
  end.

Definition SPVNode_resolve_conflicts : M unit :=
  do c <- gets chain;
  do ps <- gets peers;
  do info <- gets peer_info;
  do best <- lift (scan_peers (elements ps) info (Z.of_nat (length c)) None);
  match best.2 with
  | Some max_height_peer =>
      if bool_decide (max_height_peer = "") then modify (set_synced true)
      else send "getheaders" Blank max_height_peer
  | None => modify (set_synced true)
  end.

Definition SPVNode_handle_data (data : envelope) : M unit :=
  Node_handle_data data >>
  let msg_type := msg_type data in
  let sender := sender data in
  do message <- loads_message (message data);
  if String.eqb msg_type "getheaders" then
    do c <- gets chain;
    send "headers" (Denotes (JDict [("headers", JList c)])) sender
  else if String.eqb msg_type "headers" then
    do headers <- lift (getitem "headers" message);
    do ps <- gets peers;
    (if bool_decide (sender ∈ ps) then
       do n <- lift (len headers);
       update_peer sender (with_height (JNum n))
     else ret tt) >>
    if valid_headers headers then
      modify (set_chain (blocks_of headers)) >> modify (set_synced true)
    else SPVNode_resolve_conflicts
  else if String.eqb msg_type "addblock" then
    do block <- lift (getitem "block" message);
    do new_block_header <- lift (getitem "header" block);
    do height <- lift (getitem "height" message);
    do ps <- gets peers;
    (if bool_decide (sender ∈ ps) then update_peer sender (with_height height)
     else ret tt) >>
    do c <- gets chain;
    let chain := (c ++ [new_block_header])%list in
    if valid_chain (JList chain) then modify (set_chain chain)
    else SPVNode_resolve_conflicts
  else ret tt.

(** ** Vocabulary of the statements *)

(** The call [m] leaves the observation [f] of the node as it was, whether
    it returns or raises. *)
Definition preserves {A B} (f : node -> A) (m : M B) : Prop :=
  forall st, f (m st).2 = f st.

(** The call [m] maintains the property [I] of the node, whether it returns
    or raises. *)
Definition maintains {B} (I : node -> Prop) (m : M B) : Prop :=
  forall st, I st -> I (m st).2.

(** A frame this node does not drop at the target filter. *)
Definition addressed_to (self : string) (data : envelope) : Prop :=
  target data = "" \/ target data = self.

(** A packet whose decoding fails: the datagram is not JSON, or it is
    addressed to this node and its payload is not JSON. *)
Definition malformed_for (self : string) (p : packet) : Prop :=
  match p with
  | Undecodable => True
  | Data data => message data = Malformed /\ addressed_to self data
  end.

(** A payload [message.get] works on: the empty string or a JSON object. *)
Definition object_payload (m : text) : Prop :=
  m = Blank \/ exists d, m = Denotes (JDict d).

(** The frame a heartbeat is answered with. *)
Definition heartbeatack (self : string) (data : envelope) : envelope :=
  Envelope "heartbeatack" self Blank (sender data).

(** The invariant between the two halves of the peer table: [self.peers]
    holds exactly the keys of [self.peer_info]. *)
Definition consistent (st : node) : Prop := dom (peer_info st) = peers st.

(** Seconds between the last receive from a peer and the last send to it. *)
Definition silence (info : peer) : Z :=
  Z.of_N (lastsend info) - Z.of_N (lastrecv info).

(** Peer [p] is in the table with the integer [h] as its claimed height. *)
Definition claims (info : gmap string peer) (p : string) (h : Z) : Prop :=
  exists entry, info !! p = Some entry /\ height entry = JNum h.

(** The state after a [getdata] has been sent to the registered peer [p]. *)
Definition after_getdata (p : string) (entry : peer) (st : node) : node :=
  set_ticks (S (ticks st))
    (set_peer_info
       (<[p := Peer (peer_identifier entry) (lastrecv entry) (clock (ticks st))
                (height entry)]> (peer_info st))
      (set_outbox (outbox st ++ [Envelope "getdata" (identifier st) Blank p]) st)).

(** The height a [version] payload claims: [message.get('height')], which
    is [None] when the payload is empty or has no such key. *)
Definition claimed_height (m : text) : option json :=
  match m with
  | Blank => Some JNull
  | Denotes (JDict d) => Some (default JNull (assoc "height" d))
  | _ => None
  end.

(** The node after the handshake with the new peer [p] that claimed [h]:
    [p] is registered, and the replies [verack] and [version] are out. *)
Definition after_handshake (p : string) (h : json) (st : node) : node :=
  set_ticks (ticks st + 3)
    (set_outbox
       (outbox st ++
          [Envelope "verack" (identifier st) Blank p;
           Envelope "version" (identifier st)
             (Denotes (JDict [("height", JNum (Z.of_nat (length (chain st))))])) p])
       (set_peer_info
          (<[p := Peer p (clock (ticks st)) (clock (ticks st + 2)) h]> (peer_info st))
          (set_peers ({[p]} ∪ peers st) st))).

(** The message types some branch of [Node.handle_data] or
    [BlockchainNode.handle_data] tests for. *)
Definition handled_types : list string :=
  ["version"; "verack"; "heartbeat"; "getdata"; "getheaders"; "chain"; "addblock"].

(** A property of the node that every state change a message handler of
    [Node] can make carries over: writing an entry of [peer_info], adding
    to [peers], reading the clock, handing over a frame signed with the
    node's own identifier, and setting [ready]. *)
Record session_invariant (I : node -> Prop) : Prop := SessionInvariant {
  inv_entry : forall k v st,
    I st -> I (set_peer_info (<[k := v]> (peer_info st)) st);
  inv_add_peer : forall p st, I st -> I (set_peers ({[p]} ∪ peers st) st);
  inv_ticks : forall n st, I st -> I (set_ticks n st);
  inv_transmit : forall frame st,
    sender frame = identifier st ->
    I st -> I (set_outbox (outbox st ++ [frame]) st);
  inv_ready : forall st, I st -> I (set_ready true st)
}.

(** ... and the changes the handlers of the chain-holding classes add:
    setting [synced], and writing the chain and [tx_info]. *)
Record ledger_invariant (I : node -> Prop) : Prop := LedgerInvariant {
  inv_synced : forall st, I st -> I (set_synced true st);
  inv_chain : forall c st, I st -> I (set_chain c st);
  inv_tx_info : forall t st, I st -> I (set_tx_info t st)
}.

(** The node after a frame has been sent to the registered peer [p]: the
    frame is out, signed by the node, and the entry of [p] carries the clock
    reading as its [lastsend]. *)
Definition after_send (type : string) (message : text) (p : string)
    (entry : peer) (st : node) : node :=
  set_ticks (S (ticks st))
    (set_peer_info
       (<[p := Peer (peer_identifier entry) (lastrecv entry) (clock (ticks st))
                (height entry)]> (peer_info st))
      (set_outbox (outbox st ++ [Envelope type (identifier st) message p]) st)).

(** The payloads of the replies to [getdata] and to [getheaders]. *)
Definition chain_payload (st : node) : text :=
  Denotes (JDict [("chain", JList (chain st)); ("tx_info", JDict (tx_info st))]).

Definition headers_payload (headers : list json) : text :=
  Denotes (JDict [("headers", JList headers)]).

(** The node after [self.peer_info[p]['height'] = h] for a [p] that has an
    entry; a node without an entry for [p] is left as it is. *)
Definition note_height (p : string) (h : json) (st : node) : node :=
  match peer_info st !! p with
  | Some entry =>
      set_peer_info
        (<[p := Peer (peer_identifier entry) (lastrecv entry) (lastsend entry) h]>
           (peer_info st)) st
  | None => st
  end.

(** The payload, once decoded, is an object without the key [k]. *)
Definition lacks (k : string) (m : text) : Prop :=
  match m with
  | Blank => True
  | Denotes (JDict d) => assoc k d = None
  | _ => False
  end.

(** The keys the [chain] and [addblock] branches of
    [BlockchainNode.handle_data] subscript the payload with. *)
Definition required_keys (type : string) : list string :=
  if String.eqb type "chain" then ["chain"; "tx_info"]
  else if String.eqb type "addblock" then ["block"; "height"; "tx_info"]
  else [].

(** ** Sample data for the closed examples

    A toy instance of the open parameters: the digest starts with four
    zeros exactly when its input ends in the digit 3, a header is
    serialized as the text of its index, and the clock reads 1000, 1001, ... *)

Definition last_char (s : string) : option ascii :=
  last (String.list_ascii_of_string s).

Definition sample_digest (s : string) : string :=
  match last_char s with
  | Some "3"%char => "0000" ++ s
  | _ => "ffff" ++ s
  end.

Definition sample_serialize (header : json) : string :=
  match field "index" header with
  | Some (JNum i) => pretty i
  | _ => ""
  end.

Definition sample_clock (n : nat) : N := (1000 + N.of_nat n)%N.

Definition sample_header (index : Z) (previous_hash : string) (proof : Z) : json :=
  JDict [("index", JNum index); ("previous_hash", JStr previous_hash);
         ("timestamp", JNum 0); ("merkle_root", JStr "0");
         ("proof", JNum proof)].

Definition sample_genesis : json :=
  JDict [("header", sample_header 0 "0" 100); ("body", JList [])].

Definition sample_block1 : json :=
  JDict [("header", sample_header 1 "ffff0" 3); ("body", JList [])].

(** A node that has just been constructed, with the chain it was given. *)
Definition fresh (self : string) (chain : list json) : node :=
  MkNode self chain [] ∅ ∅ true false false [] 0.

Definition alice : string := "10.0.0.1:a".
Definition bob : string := "10.0.0.2:b".
Definition carol : string := "10.0.0.3:c".

Definition version_from (from : string) (height : Z) : envelope :=
  Envelope "version" from (Denotes (JDict [("height", JNum height)])) "".

Definition heartbeat_from (from : string) : envelope :=
  Envelope "heartbeat" from Blank "".

Definition chain_from (from to : string) (blocks : list json) : envelope :=
  Envelope "chain" from
    (Denotes (JDict [("chain", JList blocks); ("tx_info", JDict [])])) to.

Definition addblock_from (from : string) (block : json) (height : Z) : envelope :=
  Envelope "addblock" from
    (Denotes (JDict [("block", block); ("tx_info", JDict []);
                     ("height", JNum height)])) "".

(** Alice after the handshake with Bob (height 3) and Carol (height 5). *)
Definition alice_with_peers (chain : list json) : node :=
  MkNode alice chain []
    (<[bob := Peer bob 1000 1001 (JNum 3)]>
       {[carol := Peer carol 1004 1005 (JNum 5)]})
    {[bob; carol]} true true false [] 8.

(** Alice with three peers at the boundary of the idle test: [bob] silent
    for exactly 1800 s, [carol] for 1801 s, and ["10.0.0.4:d"] never sent
    to. *)
Definition alice_at_sweep : node :=
  MkNode alice [sample_genesis] []
    (<[bob := Peer bob 1000 2800 (JNum 1)]>
       (<[carol := Peer carol 1000 2801 (JNum 1)]>
          {["10.0.0.4:d" := Peer "10.0.0.4:d" 2000 0 (JNum 1)]}))
    {[bob; carol; "10.0.0.4:d"]} true true true [] 8.

(** ** Frame conditions *)

Lemma preserves_ret {A B} (f : node -> A) (b : B) : preserves f (ret b).
Proof. intros st. reflexivity. Qed.

Lemma preserves_raise {A B} (f : node -> A) (e : exn) :
  preserves f (raise e : M B).
Proof. intros st. reflexivity. Qed.

Lemma preserves_gets {A B} (f : node -> A) (g : node -> B) :
  preserves f (gets g).
Proof. intros st. reflexivity. Qed.

Lemma preserves_lift {A B} (f : node -> A) (r : exn + B) :
  preserves f (lift r).
Proof. destruct r; intros st; reflexivity. Qed.

Lemma preserves_modify {A} (f : node -> A) (g : node -> node) :
  (forall st, f (g st) = f st) -> preserves f (modify g).
Proof. intros H st. apply H. Qed.

Lemma preserves_bind {A B C} (f : node -> A) (m : M B) (k : B -> M C) :
  preserves f m -> (forall b, preserves f (k b)) -> preserves f (bind m k).
Proof.
  intros Hm Hk st. unfold bind. specialize (Hm st).
  destruct (m st) as [[b|e] st1]; simpl in *.
  - rewrite Hk. exact Hm.
  - exact Hm.
Qed.

Lemma preserves_for_each {A B} (f : node -> A) (l : list B) (body : B -> M unit) :
  (forall x, preserves f (body x)) -> preserves f (for_each l body).
Proof.
  intros H. induction l as [|x l IH]; simpl.
  - apply preserves_ret.
  - apply preserves_bind; auto.
Qed.

Lemma preserves_time {A} (f : node -> A) :
  (forall n st, f (set_ticks n st) = f st) -> preserves f time.
Proof. intros H st. apply H. Qed.

Lemma preserves_result {A B} (f : node -> A) (m : M B) st r st' :
  preserves f m -> m st = (r, st') -> f st' = f st.
Proof. intros H E. specialize (H st). rewrite E in H. exact H. Qed.

Ltac frame_step :=
  first
    [ apply preserves_ret
    | apply preserves_raise
    | apply preserves_gets
    | apply preserves_lift
    | apply preserves_time; intros; reflexivity
    | apply preserves_modify; intros; reflexivity
    | apply preserves_bind; [| intros ?]
    | apply preserves_for_each; intros ?
    | match goal with
      | |- preserves _ (if ?b then _ else _) => destruct b
      | |- preserves _ (match ?x with _ => _ end) => destruct x
      end ].

Ltac frame := repeat frame_step.

Lemma update_peer_frame {A} (f : node -> A) key g :
  (forall m st, f (set_peer_info m st) = f st) -> preserves f (update_peer key g).
Proof.
  intros H. unfold update_peer. frame.
  apply preserves_modify. intros; apply H.
Qed.

Lemma transmit_frame {A} (f : node -> A) frame :
  (forall o st, f (set_outbox o st) = f st) -> preserves f (transmit frame).
Proof. intros H. apply preserves_modify. intros; apply H. Qed.

(** What a [send] leaves alone: everything but the outbox, the peer
    timestamps and the clock. *)
Lemma send_frame {A} (f : node -> A) type message target :
  (forall o st, f (set_outbox o st) = f st) ->
  (forall m st, f (set_peer_info m st) = f st) ->
  (forall n st, f (set_ticks n st) = f st) ->
  preserves f (send type message target).
Proof.
  intros Ho Hp Ht. unfold send.
  apply preserves_bind; [frame|intros self].
  apply preserves_bind; [by apply transmit_frame|intros _].
  destruct (bool_decide _).
  - apply preserves_bind; [frame|intros ps].
    apply preserves_for_each. intros x.
    apply preserves_bind; [by apply preserves_time|intros t].
    by apply update_peer_frame.
  - apply preserves_bind; [by apply preserves_time|intros t].
    by apply update_peer_frame.
Qed.

Lemma sweep_frame {A} (f : node -> A) :
  (forall m st, f (set_peer_info m st) = f st) ->
  (forall ps st, f (set_peers ps st) = f st) ->
  preserves f sweep.
Proof.
  intros Hm Hp. unfold sweep.
  apply preserves_bind; [frame|intros info].
  apply preserves_for_each. intros peer_id.
  apply preserves_bind.
  - apply preserves_bind; [frame|intros info'].
    destruct (info' !! peer_id); [|frame].
    apply preserves_modify. intros; apply Hm.
  - intros _. apply preserves_bind; [frame|intros ps].
    destruct (bool_decide _); [|frame].
    apply preserves_modify. intros; apply Hp.
Qed.

(** ** The target filter and malformed input *)

Lemma target_filter_passes self data :
  addressed_to self data ->
  negb (Nat.eqb (String.length (target data)) 0)
  && negb (String.eqb (target data) self) = false.
Proof.
  intros [H|H]; rewrite H.
  - reflexivity.
  - rewrite String.eqb_refl. apply andb_false_r.
Qed.

Lemma target_filter_drops self data :
  target data <> "" -> target data <> self ->
  negb (Nat.eqb (String.length (target data)) 0)
  && negb (String.eqb (target data) self) = true.
Proof.
  intros Hne Hself. apply andb_true_intro. split.
  - destruct (target data); [done|reflexivity].
  - apply negb_true_iff, String.eqb_neq, Hself.
Qed.

Lemma handle_data_malformed cls data st :
  message data = Malformed ->
  handle_data cls data st = (Raises JSONDecodeError, st).
Proof.
  intros H. destruct cls; simpl;
    unfold BlockchainNode_handle_data, Node_handle_data, bind;
    rewrite H; reflexivity.
Qed.

Lemma recv_malformed cls p st :
  malformed_for (identifier st) p ->
  recv (handle_data cls) p st = (Raises JSONDecodeError, st).
Proof.
  destruct p as [|data]; simpl; [reflexivity|].
  intros [Hm Ha]. unfold bind, gets.
  rewrite (target_filter_passes _ _ Ha).
  rewrite (handle_data_malformed _ _ _ Hm). reflexivity.
Qed.

(** C7.  A decoded message whose target is non-empty and is not this
    node's identifier is dropped by [recv] before any handler runs: whatever
    the handler, the call returns and the node is exactly as it was --
    peer table, timestamps, chain, flags, outbox and clock. *)
Theorem recv_misaddressed_dropped
    (handler : envelope -> M unit) (data : envelope) (st : node) :
  target data <> "" ->
  target data <> identifier st ->
  recv handler (Data data) st = (Returns tt, st).
Proof.
  intros Hne Hself. unfold recv, bind, gets.
  rewrite (target_filter_drops _ _ Hne Hself). reflexivity.
Qed.

(** C6 (as the code has it).  An inbound frame that is not parseable JSON,
    or whose payload is not, makes [recv] raise the decoding error to its
    caller; the node -- chain, peer table, ready, synced and all the rest --
    is unchanged by the call.  [run] catches nothing but the empty queue, so
    the receive loop ends with that error, right after its sweep, and the
    packets queued behind are not read. *)
Theorem recv_malformed_raises
    (cls : node_class) (p : packet) (polls : list (option packet))
    (st st1 : node) :
  malformed_for (identifier st) p ->
  recv (handle_data cls) p st = (Raises JSONDecodeError, st)
  /\ (keep_listening st = true ->
      sweep st = (Returns tt, st1) ->
      run cls (Some p :: polls) st = (Raises JSONDecodeError, st1)).
Proof.
  intros Hp. split; [by apply recv_malformed|].
  intros Hk Hs. simpl. unfold bind at 1. unfold gets at 1. rewrite Hk.
  unfold bind at 1. rewrite Hs.
  unfold bind at 1.
  assert (Hid : identifier st1 = identifier st)
    by (eapply preserves_result; [|exact Hs]; by apply sweep_frame).
  rewrite recv_malformed; [reflexivity|by rewrite Hid].
Qed.

(** ** The handshake and the heartbeat *)

Lemma register_peer_known identifier height st :
  identifier ∈ peers st ->
  register_peer identifier height st = (Returns false, st).
Proof.
  intros H. unfold register_peer, bind, gets.
  rewrite bool_decide_eq_true_2 by done. reflexivity.
Qed.

(** C3 (as the code has it).  When peer P is already registered, a second
    [version] from P leaves the peer table unchanged -- [register_peer]
    returns false and adds nothing -- and, the replies being guarded by that
    result, the node sends neither [verack] nor [version]: the handler
    returns with the node exactly as it was. *)
Theorem version_from_registered_peer
    (cls : node_class) (data : envelope) (height : json) (st : node) :
  msg_type data = "version" ->
  sender data ∈ peers st ->
  object_payload (message data) ->
  register_peer (sender data) height st = (Returns false, st)
  /\ handle_data cls data st = (Returns tt, st).
Proof.
  intros Ht Hs Hm. split; [by apply register_peer_known|].
  assert (HN : Node_handle_data data st = (Returns tt, st)).
  { unfold Node_handle_data. cbv zeta. rewrite Ht.
    destruct Hm as [->|[d ->]]; simpl;
      unfold bind, gets, ret, lift; simpl;
      rewrite register_peer_known by done;
      destruct (ready st); reflexivity. }
  destruct cls; simpl; [exact HN|].
  unfold BlockchainNode_handle_data. unfold bind at 1. rewrite HN.
  cbv zeta. rewrite Ht.
  destruct Hm as [->|[d ->]]; reflexivity.
Qed.

Lemma send_outbox type message target st :
  outbox (send type message target st).2
  = (outbox st ++ [Envelope type (identifier st) message target])%list.
Proof.
  unfold send. unfold bind at 1. unfold gets at 1.
  unfold bind at 1. unfold transmit at 1, modify at 1.
  set (st1 := set_outbox _ st).
  change (outbox st ++ _)%list with (outbox st1).
  match goal with |- outbox (?m st1).2 = _ =>
    assert (H : preserves outbox m); [|apply H] end.
  destruct (bool_decide _).
  - apply preserves_bind; [frame|intros ps].
    apply preserves_for_each. intros x.
    apply preserves_bind; [by apply preserves_time|intros t].
    by apply update_peer_frame.
  - apply preserves_bind; [by apply preserves_time|intros t].
    by apply update_peer_frame.
Qed.

Lemma Node_handle_heartbeat data st :
  ready st = true ->
  msg_type data = "heartbeat" ->
  message data <> Malformed ->
  Node_handle_data data st = send "heartbeatack" Blank (sender data) st.
Proof.
  intros Hr Ht Hm. unfold Node_handle_data. cbv zeta. rewrite Ht.
  destruct (message data) as [| |j]; [|done|];
    simpl; unfold bind, gets, ret; rewrite Hr; reflexivity.
Qed.

Lemma bind_frame_r {A B C} (f : node -> A) (m : M B) (k : B -> M C) st :
  (forall b, preserves f (k b)) -> f (bind m k st).2 = f (m st).2.
Proof.
  intros Hk. unfold bind. destruct (m st) as [[b|e] st1]; simpl.
  - apply Hk.
  - reflexivity.
Qed.

Lemma Node_handle_heartbeat_unready data st :
  ready st = false ->
  msg_type data = "heartbeat" ->
  message data <> Malformed ->
  Node_handle_data data st = (Returns tt, st).
Proof.
  intros Hr Ht Hm. unfold Node_handle_data. cbv zeta. rewrite Ht.
  destruct (message data) as [| |j]; [|done|];
    simpl; unfold bind, gets, ret; rewrite Hr; reflexivity.
Qed.

Lemma Node_handle_heartbeat_outbox data st :
  msg_type data = "heartbeat" ->
  message data <> Malformed ->
  outbox (Node_handle_data data st).2
  = if ready st
    then (outbox st ++ [heartbeatack (identifier st) data])%list
    else outbox st.
Proof.
  intros Ht Hm. destruct (ready st) eqn:Hr.
  - rewrite Node_handle_heartbeat by done. apply send_outbox.
  - rewrite Node_handle_heartbeat_unready by done. reflexivity.
Qed.

Lemma handle_heartbeat_outbox cls data st :
  msg_type data = "heartbeat" ->
  message data <> Malformed ->
  outbox (handle_data cls data st).2
  = if ready st
    then (outbox st ++ [heartbeatack (identifier st) data])%list
    else outbox st.
Proof.
  intros Ht Hm. destruct cls; simpl.
  - by apply Node_handle_heartbeat_outbox.
  - unfold BlockchainNode_handle_data. rewrite bind_frame_r.
    + by apply Node_handle_heartbeat_outbox.
    + intros _. cbv zeta. rewrite Ht.
      apply preserves_bind; [destruct (message data); frame|intros m].
      simpl. frame.
Qed.

(** C9 (as the code has it).  The reply to a [heartbeat] is guarded by the
    [ready] flag.  A node whose flag is set answers a broadcast [heartbeat]
    (with an empty or a parseable payload) by handing to the transport one
    [heartbeatack] frame whose target is the heartbeat's sender, and that
    frame is the only addition to the outbox; a node whose flag is not set
    sends nothing. *)
Theorem heartbeat_reply_guarded_by_ready
    (cls : node_class) (data : envelope) (st : node) :
  msg_type data = "heartbeat" ->
  message data <> Malformed ->
  target data = "" ->
  outbox (recv (handle_data cls) (Data data) st).2
  = if ready st
    then (outbox st ++ [heartbeatack (identifier st) data])%list
    else outbox st.
Proof.
  intros Ht Hm Hb. unfold recv.
  unfold bind at 1. unfold gets at 1.
  rewrite target_filter_passes by (by left).
  rewrite bind_frame_r.
  - by apply handle_heartbeat_outbox.
  - intros _. cbv zeta.
    apply preserves_bind; [frame|intros ps].
    destruct (bool_decide _); [|frame].
    apply preserves_bind; [by apply preserves_time|intros t].
    by apply update_peer_frame.
Qed.

(** ** Peer bookkeeping of [send] *)




(** ** The idle sweep *)

Lemma idle_spec info : idle info = true <-> 1800 < silence info.
Proof. unfold idle, silence. rewrite Z.ltb_lt. lia. Qed.

(** The second loop of the sweep, over the identifiers collected by the
    first. *)
Lemma sweep_loop (l : list string) : forall st : node,
  NoDup l ->
  (forall p, p ∈ l -> is_Some (peer_info st !! p) /\ p ∈ peers st) ->
  exists (m : gmap string peer) (ps : gset string),
    for_each l (fun peer_id =>
      (do info <- gets peer_info;
       match info !! peer_id with
       | Some _ => modify (set_peer_info (delete peer_id info))
       | None => raise KeyError
       end) >>
      do ps <- gets peers;
      if bool_decide (peer_id ∈ ps) then modify (set_peers (ps ∖ {[peer_id]}))
      else raise KeyError) st
    = (Returns tt, set_peers ps (set_peer_info m st))
    /\ (forall p, m !! p = if decide (p ∈ l) then None else peer_info st !! p)
    /\ (forall p, p ∈ ps <-> p ∈ peers st /\ p ∉ l).
Proof.
  induction l as [|x l IH]; intros st Hnd Hin.
  - exists (peer_info st), (peers st). split; [|split].
    + destruct st; reflexivity.
    + intros p. rewrite decide_False; [done|]. apply not_elem_of_nil.
    + intros p. split; [intros H; split; [done|apply not_elem_of_nil]|by intros [H _]].
  - apply NoDup_cons in Hnd as [Hx Hnd].
    destruct (Hin x) as [[px Hpx] Hxs]; [left|].
    set (st1 := set_peers (peers st ∖ {[x]})
                  (set_peer_info (delete x (peer_info st)) st)).
    destruct (IH st1 Hnd) as (m & ps & Hrun & Hm & Hps).
    { intros p Hp. destruct (Hin p) as [Hsome Hmem]; [by right|].
      assert (p <> x) by (intros ->; done).
      simpl. rewrite lookup_delete_ne by done. split; [done|].
      apply elem_of_difference. split; [done|].
      by apply not_elem_of_singleton. }
    exists m, ps. split; [|split].
    + simpl. unfold bind at 1. unfold bind at 1. unfold bind at 1.
      unfold gets at 1. rewrite Hpx. unfold modify at 1.
      unfold bind at 1. unfold gets at 1. simpl.
      rewrite bool_decide_eq_true_2 by done. unfold modify at 1.
      refine (eq_trans Hrun _). f_equal.
    + intros p. rewrite Hm. simpl. destruct (decide (p = x)) as [->|Hne].
      * rewrite lookup_delete_eq. rewrite (decide_True (P := x ∈ x :: l)) by left.
        by destruct (decide (x ∈ l)).
      * rewrite lookup_delete_ne by done.
        destruct (decide (p ∈ l)) as [Hl|Hl].
        -- rewrite decide_True; [done|by right].
        -- rewrite decide_False; [done|]. rewrite elem_of_cons.
           intros [?|?]; done.
    + intros p. rewrite Hps. simpl.
      rewrite (elem_of_difference (peers st)), (not_elem_of_cons l).
      rewrite (not_elem_of_singleton (C := gset string)).
      split; [intros [[? ?] ?]|intros [? [? ?]]]; done.
Qed.

Lemma sweep_result (st : node) :
  consistent st ->
  exists st',
    sweep st = (Returns tt, st')
    /\ (forall p, peer_info st' !! p
                  = match peer_info st !! p with
                    | Some info => if idle info then None else Some info
                    | None => None
                    end)
    /\ (forall p, p ∈ peers st' <-> is_Some (peer_info st' !! p)).
Proof.
  intros Hc. unfold sweep. unfold bind at 1. unfold gets at 1.
  set (l := (map_to_list (filter _ (peer_info st))).*1).
  assert (Hl : forall p, p ∈ l <-> exists info, peer_info st !! p = Some info
                                               /\ idle info = true).
  { intros p. unfold l. rewrite list_elem_of_fmap. split.
    - intros [[k v] [-> Hkv]]. apply elem_of_map_to_list in Hkv.
      apply map_lookup_filter_Some in Hkv as [Hkv Hidle]. eauto.
    - intros (info & Hp & Hidle). exists (p, info). split; [done|].
      apply elem_of_map_to_list, map_lookup_filter_Some. done. }
  destruct (sweep_loop l st) as (m & ps & Hrun & Hm & Hps).
  { apply NoDup_fst_map_to_list. }
  { intros p Hp. apply Hl in Hp as (info & Hp & _). split; [eauto|].
    rewrite <- Hc. apply elem_of_dom. eauto. }
  assert (Hlook : forall p, m !! p = match peer_info st !! p with
                                     | Some info => if idle info then None else Some info
                                     | None => None
                                     end).
  { intros p. rewrite Hm. destruct (decide (p ∈ l)) as [Hp|Hp].
    - apply Hl in Hp as (info & -> & ->). done.
    - destruct (peer_info st !! p) as [info|] eqn:E; [|done].
      destruct (idle info) eqn:Hi; [|done].
      exfalso. apply Hp, Hl. eauto. }
  eexists. split; [exact Hrun|]. split; [exact Hlook|].
  intros p. simpl. rewrite Hps, Hlook, <- Hc, elem_of_dom, Hl.
  destruct (peer_info st !! p) as [info|] eqn:E.
  - destruct (idle info) eqn:Hi.
    + split; [intros [_ H]; exfalso; apply H; eauto|intros [? ?]; done].
    + split; [eauto|]. intros _. split; [eauto|].
      intros (info' & Hi' & Hidle). congruence.
  - split; [intros [[? ?] _]; done|intros [? ?]; done].
Qed.

(** ** Consistency of the peer table is an invariant of the receive loop *)

Lemma maintains_ret {B} (I : node -> Prop) (b : B) : maintains I (ret b).
Proof. intros st H. exact H. Qed.

Lemma maintains_raise {B} (I : node -> Prop) (e : exn) :
  maintains I (raise e : M B).
Proof. intros st H. exact H. Qed.

Lemma maintains_gets {B} (I : node -> Prop) (g : node -> B) :
  maintains I (gets g).
Proof. intros st H. exact H. Qed.

Lemma maintains_lift {B} (I : node -> Prop) (r : exn + B) :
  maintains I (lift r).
Proof. destruct r; intros st H; exact H. Qed.

Lemma maintains_bind {B C} (I : node -> Prop) (m : M B) (k : B -> M C) :
  maintains I m -> (forall b, maintains I (k b)) -> maintains I (bind m k).
Proof.
  intros Hm Hk st H. unfold bind. specialize (Hm st H).
  destruct (m st) as [[b|e] st1]; simpl in *.
  - by apply Hk.
  - exact Hm.
Qed.

Lemma maintains_for_each {B} (I : node -> Prop) (l : list B) (body : B -> M unit) :
  (forall x, maintains I (body x)) -> maintains I (for_each l body).
Proof.
  intros H. induction l as [|x l IH]; simpl.
  - apply maintains_ret.
  - apply maintains_bind; auto.
Qed.

Lemma maintains_consistent_modify (g : node -> node) :
  (forall st, peer_info (g st) = peer_info st) ->
  (forall st, peers (g st) = peers st) ->
  maintains consistent (modify g).
Proof.
  intros Hi Hp st H. unfold consistent, modify in *. simpl.
  by rewrite Hi, Hp.
Qed.

Ltac maintain_step :=
  first
    [ apply maintains_ret
    | apply maintains_raise
    | apply maintains_gets
    | apply maintains_lift
    | apply maintains_consistent_modify; intros; reflexivity
    | apply maintains_bind; [| intros ?]
    | apply maintains_for_each; intros ?
    | match goal with
      | |- maintains _ (if ?b then _ else _) => destruct b
      | |- maintains _ (match ?x with _ => _ end) => destruct x
      end ].

Ltac maintain := repeat maintain_step.

Lemma time_consistent : maintains consistent time.
Proof. intros st H. exact H. Qed.

Lemma update_peer_consistent key g : maintains consistent (update_peer key g).
Proof.
  intros st H. unfold update_peer, bind, gets.
  destruct (peer_info st !! key) as [p|] eqn:E; simpl; [|exact H].
  unfold consistent in *. simpl. rewrite dom_insert_L, <- H.
  apply subseteq_union_1_L, singleton_subseteq_l, elem_of_dom. eauto.
Qed.

Lemma send_consistent type message target :
  maintains consistent (send type message target).
Proof.
  unfold send, transmit.
  apply maintains_bind; [maintain|intros self].
  apply maintains_bind; [maintain|intros _].
  destruct (bool_decide _).
  - apply maintains_bind; [maintain|intros ps].
    apply maintains_for_each. intros x.
    apply maintains_bind; [apply time_consistent|intros t].
    apply update_peer_consistent.
  - apply maintains_bind; [apply time_consistent|intros t].
    apply update_peer_consistent.
Qed.

Lemma register_peer_consistent identifier height :
  maintains consistent (register_peer identifier height).
Proof.
  intros st H. unfold register_peer, bind, gets, modify, time, ret.
  destruct (bool_decide _); simpl; [exact H|].
  unfold consistent in *. simpl. by rewrite dom_insert_L, H.
Qed.

Lemma resolve_conflicts_consistent : maintains consistent resolve_conflicts.
Proof.
  unfold resolve_conflicts.
  do 4 (apply maintains_bind; [maintain|intros ?]).
  destruct (_.2) as [p|]; [|maintain].
  destruct (bool_decide _); [maintain|]. apply send_consistent.
Qed.

Lemma sweep_consistent : maintains consistent sweep.
Proof.
  intros st H. destruct (sweep_result st H) as (st' & -> & _ & Hps).
  simpl. apply set_eq. intros p. rewrite Hps. apply elem_of_dom.
Qed.

(** C4.  On a consistent peer table the sweep returns normally and removes,
    from [peer_info] and from [peers] alike, exactly the peers whose
    [lastsend - lastrecv] strictly exceeds 1800 seconds; every other entry
    is kept as it was.  In particular a peer at exactly 1800 s is kept, one
    at 1801 s is removed, and a peer nothing has been sent to
    ([lastsend = 0], [lastrecv] a clock reading) is kept. *)
Theorem sweep_evicts_exactly_idle_peers (st : node) :
  consistent st ->
  exists st',
    sweep st = (Returns tt, st')
    /\ consistent st'
    /\ (forall p, peer_info st !! p = None -> peer_info st' !! p = None)
    /\ forall p info, peer_info st !! p = Some info ->
         (1800 < silence info -> peer_info st' !! p = None /\ p ∉ peers st')
         /\ (silence info <= 1800 ->
               peer_info st' !! p = Some info /\ p ∈ peers st')
         /\ (silence info = 1800 ->
               peer_info st' !! p = Some info /\ p ∈ peers st')
         /\ (silence info = 1801 ->
               peer_info st' !! p = None /\ p ∉ peers st')
         /\ (lastsend info = 0%N ->
               peer_info st' !! p = Some info /\ p ∈ peers st').
Proof.
  intros Hc. destruct (sweep_result st Hc) as (st' & Hrun & Hlook & Hps).
  exists st'. split; [exact Hrun|]. split; [|split].
  - apply set_eq. intros p. rewrite Hps. apply elem_of_dom.
  - intros p Hp. rewrite Hlook, Hp. reflexivity.
  - intros p info Hp.
    assert (Hgone : 1800 < silence info ->
                    peer_info st' !! p = None /\ p ∉ peers st').
    { intros Hs. apply idle_spec in Hs.
      assert (E : peer_info st' !! p = None) by (by rewrite Hlook, Hp, Hs).
      split; [exact E|]. rewrite Hps, E. by intros [? ?]. }
    assert (Hkept : silence info <= 1800 ->
                    peer_info st' !! p = Some info /\ p ∈ peers st').
    { intros Hs. assert (Hi : idle info = false).
      { destruct (idle info) eqn:Hi; [|done]. apply idle_spec in Hi. lia. }
      assert (E : peer_info st' !! p = Some info) by (by rewrite Hlook, Hp, Hi).
      split; [exact E|]. rewrite Hps, E. eauto. }
    split; [exact Hgone|]. split; [exact Hkept|].
    split; [intros Hs; apply Hkept; lia|].
    split; [intros Hs; apply Hgone; lia|].
    intros Hs. apply Hkept. unfold silence. rewrite Hs. lia.
Qed.

(** ** Proof of work *)

Lemma proof_of_work_from_finds (prev_hash : string) (n : nat) :
  forall start : Z,
    valid_proof prev_hash (start + Z.of_nat n) = true ->
    exists p,
      start <= p <= start + Z.of_nat n
      /\ valid_proof prev_hash p = true
      /\ (forall q, start <= q < p -> valid_proof prev_hash q = false)
      /\ forall fuel, (Z.to_nat (p - start) < fuel)%nat ->
           proof_of_work_from fuel prev_hash start = Some p.
Proof.
  induction n as [|n IH]; intros start Hv.
  - exists start. rewrite Z.add_0_r in Hv.
    split; [lia|]. split; [exact Hv|]. split; [intros q Hq; lia|].
    intros [|fuel] Hf; [lia|]. simpl. by rewrite Hv.
  - destruct (valid_proof prev_hash start) eqn:Hs.
    + exists start. split; [lia|]. split; [exact Hs|].
      split; [intros q Hq; lia|].
      intros [|fuel] Hf; [lia|]. simpl. by rewrite Hs.
    + destruct (IH (start + 1)) as (p & Hr & Hp & Hleast & Hfuel).
      { rewrite <- Hv. f_equal. lia. }
      exists p. split; [lia|]. split; [exact Hp|]. split.
      * intros q Hq. destruct (decide (q = start)) as [->|Hne]; [exact Hs|].
        apply Hleast. lia.
      * intros [|fuel] Hf; [lia|]. simpl. rewrite Hs. apply Hfuel.
        replace (p - start) with (Z.succ (p - (start + 1))) in Hf by lia.
        rewrite Z2Nat.inj_succ in Hf by lia. lia.
Qed.

(** C8.  If some non-negative integer satisfies [valid_proof] for
    [prev_hash], the search that counts [proof] up from 0 terminates: there
    is an iteration bound from which on the loop returns, and the proof it
    returns satisfies [valid_proof] and is the least non-negative integer
    that does. *)
Theorem proof_of_work_terminates_with_least (prev_hash : string) :
  (exists q, 0 <= q /\ valid_proof prev_hash q = true) ->
  exists p,
    (exists bound, forall fuel, (bound <= fuel)%nat ->
       proof_of_work fuel prev_hash = Some p)
    /\ 0 <= p
    /\ valid_proof prev_hash p = true
    /\ forall q, 0 <= q -> valid_proof prev_hash q = true -> p <= q.
Proof.
  intros (q & Hq & Hv).
  destruct (proof_of_work_from_finds prev_hash (Z.to_nat q) 0)
    as (p & Hr & Hp & Hleast & Hfuel).
  { rewrite Z.add_0_l, Z2Nat.id by done. exact Hv. }
  exists p. split; [|split; [lia|split; [exact Hp|]]].
  - exists (S (Z.to_nat (p - 0))). intros fuel Hf. apply Hfuel. lia.
  - intros q' Hq' Hv'. destruct (decide (p <= q')) as [|Hlt]; [done|].
    rewrite Hleast in Hv' by lia. done.
Qed.

(** ** Conflict resolution *)

Lemma claims_functional info p h k : claims info p h -> claims info p k -> h = k.
Proof. intros (e1 & H1 & E1) (e2 & H2 & E2). congruence. Qed.

(** The scan either leaves its accumulator alone, no height in the list
    exceeding it, or ends on a peer of the list whose height exceeds the
    initial bound and is the greatest of the list. *)
Lemma scan_peers_spec (info : gmap string peer) (l : list string) :
  forall (bound : Z) (best : option string),
    (forall p, p ∈ l -> exists h, claims info p h) ->
    exists m mp,
      scan_peers l info bound best = inr (m, mp)
      /\ ((m = bound /\ mp = best
           /\ forall p h, p ∈ l -> claims info p h -> h <= bound)
          \/ (exists p, mp = Some p /\ p ∈ l /\ claims info p m /\ bound < m
                        /\ forall q k, q ∈ l -> claims info q k -> k <= m)).
Proof.
  induction l as [|x l IH]; intros bound best Hall.
  - exists bound, best. split; [reflexivity|]. left.
    split; [done|split; [done|]]. intros p h Hp. by apply not_elem_of_nil in Hp.
  - destruct (Hall x) as (h & Hx); [left|].
    assert (Hl : forall p, p ∈ l -> exists h, claims info p h)
      by (intros p Hp; apply Hall; by right).
    pose proof Hx as (entry & Hentry & Hheight).
    simpl. rewrite Hentry, Hheight. simpl.
    destruct (bound <? h) eqn:Hlt.
    + apply Z.ltb_lt in Hlt.
      destruct (IH h (Some x) Hl) as (m & mp & Hrun & Hcase).
      exists m, mp. split; [exact Hrun|]. right.
      destruct Hcase as [(-> & -> & Hle)|(p & -> & Hp & Hc & Hgt & Hmax)].
      * exists x. split; [done|]. split; [left|]. split; [done|]. split; [done|].
        intros q k Hq Hk. apply elem_of_cons in Hq as [->|Hq].
        -- rewrite (claims_functional _ _ _ _ Hk Hx). lia.
        -- eauto.
      * exists p. split; [done|]. split; [by right|]. split; [done|].
        split; [lia|].
        intros q k Hq Hk. apply elem_of_cons in Hq as [->|Hq].
        -- rewrite (claims_functional _ _ _ _ Hk Hx). lia.
        -- eauto.
    + apply Z.ltb_ge in Hlt.
      destruct (IH bound best Hl) as (m & mp & Hrun & Hcase).
      exists m, mp. split; [exact Hrun|].
      destruct Hcase as [(-> & -> & Hle)|(p & -> & Hp & Hc & Hgt & Hmax)].
      * left. split; [done|]. split; [done|].
        intros q k Hq Hk. apply elem_of_cons in Hq as [->|Hq].
        -- rewrite (claims_functional _ _ _ _ Hk Hx). lia.
        -- eauto.
      * right. exists p. split; [done|]. split; [by right|]. split; [done|].
        split; [done|].
        intros q k Hq Hk. apply elem_of_cons in Hq as [->|Hq].
        -- rewrite (claims_functional _ _ _ _ Hk Hx). lia.
        -- eauto.
Qed.

(** X14.  Take a full node whose peer table maps each known peer to an
    integer claimed height.  If no claimed height exceeds [len(chain)],
    conflict resolution sets [synced] and sends nothing.  Otherwise it
    selects a peer whose claimed height is the greatest of the table and
    strictly exceeds [len(chain)]; when the identifier of that peer is not
    the empty string, the node sends it a targeted [getdata] and [synced]
    is left as it was; when it is the empty string, which the code takes
    for no peer (it tests the selected identifier for truthiness), the node
    sets [synced] and sends nothing. *)
Theorem resolve_conflicts_selects_greatest_height (st : node) :
  (forall p, p ∈ peers st -> exists h, claims (peer_info st) p h) ->
  ((forall p h, p ∈ peers st -> claims (peer_info st) p h ->
      h <= Z.of_nat (length (chain st))) ->
   resolve_conflicts st = (Returns tt, set_synced true st))
  /\ ((exists p h, p ∈ peers st /\ claims (peer_info st) p h
                   /\ Z.of_nat (length (chain st)) < h) ->
      exists p entry h,
        p ∈ peers st
        /\ peer_info st !! p = Some entry
        /\ height entry = JNum h
        /\ Z.of_nat (length (chain st)) < h
        /\ (forall q k, q ∈ peers st -> claims (peer_info st) q k -> k <= h)
        /\ (p <> "" ->
            resolve_conflicts st = (Returns tt, after_getdata p entry st)
            /\ synced (after_getdata p entry st) = synced st)
        /\ (p = "" -> resolve_conflicts st = (Returns tt, set_synced true st))).
Proof.
  intros Hall.
  destruct (scan_peers_spec (peer_info st) (elements (peers st))
              (Z.of_nat (length (chain st))) None)
    as (m & mp & Hscan & Hcase).
  { intros p Hp. apply Hall. by apply elem_of_elements. }
  split.
  - intros Hle. unfold resolve_conflicts, bind, gets. rewrite Hscan. simpl.
    destruct Hcase as [(-> & -> & _)|(p & -> & Hp & Hc & Hgt & _)].
    + reflexivity.
    + exfalso. apply elem_of_elements in Hp. specialize (Hle p m Hp Hc). lia.
  - intros (p0 & h0 & Hp0 & Hc0 & Hgt0).
    destruct Hcase as [(-> & -> & Hle)|(p & -> & Hp & Hc & Hgt & Hmax)].
    + exfalso. apply elem_of_elements in Hp0. specialize (Hle p0 h0 Hp0 Hc0). lia.
    + apply elem_of_elements in Hp. pose proof Hc as (entry & Hentry & Hheight).
      exists p, entry, m.
      split; [done|]. split; [done|]. split; [done|]. split; [done|].
      split; [intros q k Hq Hk; apply (Hmax q k); [by apply elem_of_elements|done]|].
      split.
      * intros Hne. split; [|reflexivity].
        unfold resolve_conflicts, bind, gets. rewrite Hscan. simpl.
        rewrite bool_decide_eq_false_2 by done.
        unfold send, bind, gets, transmit, modify, time.
        rewrite bool_decide_eq_false_2 by done.
        unfold update_peer, bind, gets. simpl. rewrite Hentry. reflexivity.
      * intros ->. unfold resolve_conflicts, bind, gets. rewrite Hscan.
        reflexivity.
Qed.

(** ** Chain replacement and block acceptance *)

Lemma Node_handle_data_chain data : preserves chain (Node_handle_data data).
Proof.
  unfold Node_handle_data. cbv zeta.
  apply preserves_bind; [destruct (message data); frame|intros m].
  apply preserves_bind.
  - destruct (String.eqb _ _).
    + apply preserves_bind; [frame|intros h].
      apply preserves_bind.
      * unfold register_peer. frame.
      * intros [|]; [|frame].
        apply preserves_bind; [by apply send_frame|intros _].
        apply preserves_bind; [frame|intros c]. by apply send_frame.
    + frame.
  - intros _. apply preserves_bind; [frame|intros r].
    destruct r; [|frame]. destruct (String.eqb _ _); [|frame].
    by apply send_frame.
Qed.

Lemma resolve_conflicts_chain : preserves chain resolve_conflicts.
Proof.
  unfold resolve_conflicts.
  do 4 (apply preserves_bind; [frame|intros ?]).
  destruct (_.2) as [p|]; [|frame].
  destruct (bool_decide _); [frame|]. by apply send_frame.
Qed.

Lemma bind_snd {A B} (m : M A) (k : A -> M B) st :
  (bind m k st).2
  = match m st with
    | (Returns a, st1) => (k a st1).2
    | (Raises _, st1) => st1
    end.
Proof. unfold bind. by destruct (m st) as [[a|e] st1]. Qed.

Lemma valid_chain_is_list c :
  valid_chain c = true -> c = JList (blocks_of c).
Proof. destruct c; simpl; try done. Qed.

Arguments valid_chain : simpl never.

(** What a [chain] message does to the stored chain: nothing, or the
    payload's chain, which [valid_chain] accepted, takes its place. *)
Lemma chain_message_effect data st :
  msg_type data = "chain" ->
  chain (handle_data BlockchainNode data st).2 = chain st
  \/ exists payload c,
       message data = Denotes payload
       /\ getitem "chain" payload = inr c
       /\ valid_chain c = true
       /\ chain (handle_data BlockchainNode data st).2 = blocks_of c.
Proof.
  intros Ht.
  remember (chain (handle_data BlockchainNode data st).2) as final eqn:Hf.
  simpl in Hf. unfold BlockchainNode_handle_data in Hf. cbv zeta in Hf.
  rewrite Ht, bind_snd in Hf.
  pose proof (Node_handle_data_chain data st) as HN.
  destruct (Node_handle_data data st) as [[[]|e] st1]; simpl in HN;
    [|left; congruence].
  rewrite <- HN. clear HN.
  rewrite bind_snd in Hf.
  destruct (message data) as [| |payload]; simpl in Hf; [by left|by left|].
  rewrite bind_snd in Hf.
  destruct (getitem "chain" payload) as [e|c] eqn:Hc; simpl in Hf; [by left|].
  rewrite bind_snd in Hf.
  destruct (getitem "tx_info" payload) as [e|tx] eqn:Htx; simpl in Hf; [by left|].
  rewrite bind_snd in Hf. unfold gets at 1 in Hf. rewrite bind_snd in Hf.
  match type of Hf with context [match ?m st1 with _ => _ end] =>
    assert (Hupd : preserves chain m);
      [|specialize (Hupd st1); destruct (m st1) as [[[]|e] st2]] end.
  { destruct (bool_decide _); [|frame].
    apply preserves_bind; [frame|intros n]. by apply update_peer_frame. }
  2: { left. by rewrite Hf. }
  simpl in Hupd. rewrite <- Hupd.
  destruct (valid_chain c) eqn:Hv.
  - right. exists payload, c. split; [done|]. split; [done|]. split; [done|].
    rewrite Hf. unfold bind, modify. simpl. destruct tx; reflexivity.
  - left. rewrite Hf. apply resolve_conflicts_chain.
Qed.

(** X15.  When handling a [chain] message changes the
    node's chain, the new chain is the one the message carried and it
    satisfies [valid_chain]; validity is the only test the handler makes
    before it assigns, and the lengths of the two chains are not compared. *)
Theorem chain_replacement_is_valid (data : envelope) (st : node) :
  msg_type data = "chain" ->
  chain (handle_data BlockchainNode data st).2 <> chain st ->
  valid_chain (JList (chain (handle_data BlockchainNode data st).2)) = true
  /\ exists payload,
       message data = Denotes payload
       /\ getitem "chain" payload
          = inr (JList (chain (handle_data BlockchainNode data st).2)).
Proof.
  intros Ht Hne.
  destruct (chain_message_effect data st Ht)
    as [Hsame|(payload & c & Hm & Hc & Hv & Hnew)]; [done|].
  rewrite Hnew. rewrite <- (valid_chain_is_list c Hv).
  split; [exact Hv|]. exists payload. done.
Qed.

(** What an [addblock] message does to the stored chain: nothing, or the
    payload's block is appended, the extended chain being valid. *)
Lemma addblock_effect data st :
  msg_type data = "addblock" ->
  chain (handle_data BlockchainNode data st).2 = chain st
  \/ exists payload block,
       message data = Denotes payload
       /\ getitem "block" payload = inr block
       /\ valid_chain (JList (chain st ++ [block])) = true
       /\ chain (handle_data BlockchainNode data st).2
          = (chain st ++ [block])%list.
Proof.
  intros Ht.
  remember (chain (handle_data BlockchainNode data st).2) as final eqn:Hf.
  simpl in Hf. unfold BlockchainNode_handle_data in Hf. cbv zeta in Hf.
  rewrite Ht, bind_snd in Hf.
  pose proof (Node_handle_data_chain data st) as HN.
  destruct (Node_handle_data data st) as [[[]|e] st1]; simpl in HN;
    [|left; congruence].
  rewrite <- HN. clear HN.
  rewrite bind_snd in Hf.
  destruct (message data) as [| |payload]; simpl in Hf; [by left|by left|].
  rewrite bind_snd in Hf.
  destruct (getitem "block" payload) as [e|block] eqn:Hb; simpl in Hf; [by left|].
  rewrite bind_snd in Hf.
  destruct (getitem "height" payload) as [e|h] eqn:Hh; simpl in Hf; [by left|].
  rewrite bind_snd in Hf.
  destruct (getitem "tx_info" payload) as [e|tx] eqn:Htx; simpl in Hf; [by left|].
  rewrite bind_snd in Hf. unfold gets at 1 in Hf. rewrite bind_snd in Hf.
  match type of Hf with context [match ?m st1 with _ => _ end] =>
    assert (Hupd : preserves chain m);
      [|specialize (Hupd st1); destruct (m st1) as [[[]|e] st2]] end.
  { destruct (bool_decide _); [|frame]. by apply update_peer_frame. }
  2: { left. by rewrite Hf. }
  simpl in Hupd. rewrite <- Hupd.
  rewrite bind_snd in Hf. unfold gets at 1 in Hf.
  destruct (valid_chain (JList (chain st2 ++ [block]))) eqn:Hv.
  - right. exists payload, block. split; [done|]. split; [done|]. split; [done|].
    rewrite Hf. unfold bind, modify. simpl. destruct tx; reflexivity.
  - left. rewrite Hf. apply resolve_conflicts_chain.
Qed.

(** No block follows itself: its index would be its own successor. *)
Lemma valid_block_irreflexive block : valid_block block block = false.
Proof.
  unfold valid_block.
  destruct (field "header" block) as [h|]; [|done].
  destruct (field "index" h) as [[| |i| | |]|]; try done.
  destruct (field "previous_hash" h) as [[| | |prev| |]|]; try done.
  destruct (field "proof" h) as [[| |proof| | |]|]; try done.
  replace (i =? i + 1) with false by (symmetry; apply Z.eqb_neq; lia).
  reflexivity.
Qed.

Lemma valid_links_repeated previous rest block :
  valid_links previous (rest ++ [block; block]) = false.
Proof.
  revert previous. induction rest as [|b rest IH]; intros previous; simpl.
  - rewrite valid_block_irreflexive. apply andb_false_r.
  - rewrite IH. apply andb_false_r.
Qed.

Lemma valid_chain_repeated blocks block :
  valid_chain (JList ((blocks ++ [block]) ++ [block])) = false.
Proof.
  rewrite <- app_assoc. unfold valid_chain.
  destruct blocks as [|first rest]; simpl.
  - rewrite valid_block_irreflexive. apply andb_false_r.
  - rewrite valid_links_repeated. apply andb_false_r.
Qed.

(** C5.  Handling the same [addblock] message twice is idempotent on the
    chain: once the first application has appended the block, the second
    leaves the chain as the first left it, because the tentative chain with
    the block appended again is rejected by [valid_chain] and discarded. *)
Theorem addblock_twice_leaves_chain (data : envelope) (st : node) :
  msg_type data = "addblock" ->
  chain (handle_data BlockchainNode data st).2 <> chain st ->
  exists block,
    chain (handle_data BlockchainNode data st).2 = (chain st ++ [block])%list
    /\ valid_chain (JList ((chain st ++ [block]) ++ [block])) = false
    /\ chain (handle_data BlockchainNode data
                (handle_data BlockchainNode data st).2).2
       = chain (handle_data BlockchainNode data st).2.
Proof.
  intros Ht Hne.
  destruct (addblock_effect data st Ht)
    as [Hsame|(payload & block & Hm & Hb & Hv & Hnew)]; [done|].
  exists block. split; [exact Hnew|].
  split; [apply valid_chain_repeated|].
  destruct (addblock_effect data (handle_data BlockchainNode data st).2 Ht)
    as [Hsame|(payload' & block' & Hm' & Hb' & Hv' & Hnew')]; [exact Hsame|].
  exfalso. rewrite Hm in Hm'. injection Hm' as <-.
  rewrite Hb in Hb'. injection Hb' as <-.
  rewrite Hnew, valid_chain_repeated in Hv'. done.
Qed.

(** ** The receive loop keeps the peer table consistent *)

Lemma merge_tx_info_consistent tx : maintains consistent (merge_tx_info tx).
Proof. unfold merge_tx_info. maintain. Qed.

Lemma Node_handle_data_consistent data :
  maintains consistent (Node_handle_data data).
Proof.
  unfold Node_handle_data. cbv zeta.
  apply maintains_bind; [destruct (message data); maintain|intros m].
  apply maintains_bind.
  - destruct (String.eqb _ _); [|maintain].
    apply maintains_bind; [maintain|intros h].
    apply maintains_bind; [apply register_peer_consistent|].
    intros [|]; [|maintain].
    apply maintains_bind; [apply send_consistent|intros _].
    apply maintains_bind; [maintain|intros c]. apply send_consistent.
  - intros _. apply maintains_bind; [maintain|intros r].
    destruct r; [|maintain]. destruct (String.eqb _ _); [|maintain].
    apply send_consistent.
Qed.

Lemma BlockchainNode_handle_data_consistent data :
  maintains consistent (BlockchainNode_handle_data data).
Proof.
  unfold BlockchainNode_handle_data. cbv zeta.
  apply maintains_bind; [apply Node_handle_data_consistent|intros _].
  apply maintains_bind; [destruct (message data); maintain|intros m].
  destruct (String.eqb _ "getdata").
  { do 2 (apply maintains_bind; [maintain|intros ?]). apply send_consistent. }
  destruct (String.eqb _ "getheaders").
  { do 2 (apply maintains_bind; [maintain|intros ?]). apply send_consistent. }
  destruct (String.eqb _ "chain").
  { do 3 (apply maintains_bind; [maintain|intros ?]).
    apply maintains_bind.
    - destruct (bool_decide _); [|maintain].
      apply maintains_bind; [maintain|intros n]. apply update_peer_consistent.
    - intros _. destruct (valid_chain _); [|apply resolve_conflicts_consistent].
      apply maintains_bind; [maintain|intros _].
      apply maintains_bind; [apply merge_tx_info_consistent|intros _].
      maintain. }
  destruct (String.eqb _ "addblock"); [|maintain].
  do 4 (apply maintains_bind; [maintain|intros ?]).
  apply maintains_bind.
  - destruct (bool_decide _); [|maintain]. apply update_peer_consistent.
  - intros _. apply maintains_bind; [maintain|intros c].
    destruct (valid_chain _); [|apply resolve_conflicts_consistent].
    apply maintains_bind; [maintain|intros _].
    apply merge_tx_info_consistent.
Qed.

Lemma handle_data_consistent cls data :
  maintains consistent (handle_data cls data).
Proof.
  destruct cls; simpl.
  - apply Node_handle_data_consistent.
  - apply BlockchainNode_handle_data_consistent.
Qed.

Lemma recv_consistent cls p : maintains consistent (recv (handle_data cls) p).
Proof.
  destruct p as [|data]; simpl; [maintain|].
  apply maintains_bind; [maintain|intros self].
  destruct (_ && _); [maintain|].
  apply maintains_bind; [apply handle_data_consistent|intros _].
  apply maintains_bind; [maintain|intros ps].
  destruct (bool_decide _); [|maintain].
  apply maintains_bind; [apply time_consistent|intros t].
  apply update_peer_consistent.
Qed.

(** Every state the receive loop passes through, from a freshly
    constructed node on, has a consistent peer table. *)
Lemma run_consistent cls polls : maintains consistent (run cls polls).
Proof.
  induction polls as [|poll polls IH]; simpl; [maintain|].
  apply maintains_bind; [maintain|intros listening].
  destruct listening; [|maintain].
  apply maintains_bind; [apply sweep_consistent|intros _].
  apply maintains_bind; [|intros _; exact IH].
  destruct poll; [apply recv_consistent|maintain].
Qed.

Lemma fresh_consistent self chain : consistent (fresh self chain).
Proof. unfold consistent, fresh. simpl. apply dom_empty_L. Qed.

(** ** Further properties of the session engine *)

Lemma node_ext (a b : node) :
  identifier a = identifier b ->
  chain a = chain b ->
  tx_info a = tx_info b ->
  peer_info a = peer_info b ->
  peers a = peers b ->
  keep_listening a = keep_listening b ->
  ready a = ready b ->
  synced a = synced b ->
  outbox a = outbox b ->
  ticks a = ticks b ->
  a = b.
Proof. destruct a, b; simpl; intros; by subst. Qed.

Lemma bind_returns {A B} (m : M A) (k : A -> M B) st a st1 :
  m st = (Returns a, st1) -> bind m k st = k a st1.
Proof. intros H. unfold bind. by rewrite H. Qed.

Lemma bind_raises {A B} (m : M A) (k : A -> M B) st e st1 :
  m st = (Raises e, st1) -> bind m k st = (Raises e, st1).
Proof. intros H. unfold bind. by rewrite H. Qed.

Lemma bind_assoc {A B C} (m : M A) (k1 : A -> M B) (k2 : B -> M C) st :
  bind (bind m k1) k2 st = bind m (fun a => bind (k1 a) k2) st.
Proof. unfold bind. by destruct (m st) as [[a|e] st1]. Qed.

Lemma register_peer_new identifier height st :
  identifier ∉ peers st ->
  register_peer identifier height st
  = (Returns true,
     set_peer_info
       (<[identifier := Peer identifier (clock (ticks st)) 0%N height]> (peer_info st))
       (set_ticks (S (ticks st)) (set_peers ({[identifier]} ∪ peers st) st))).
Proof.
  intros H. unfold register_peer, bind, gets.
  rewrite bool_decide_eq_false_2 by done. reflexivity.
Qed.

Lemma send_to_registered type message target entry st :
  target <> "" ->
  peer_info st !! target = Some entry ->
  send type message target st
  = (Returns tt,
     set_ticks (S (ticks st))
       (set_peer_info
          (<[target := with_lastsend (clock (ticks st)) entry]> (peer_info st))
          (set_outbox
             (outbox st ++ [Envelope type (identifier st) message target]) st))).
Proof.
  intros Hne He. unfold send, bind, gets, transmit, modify, time.
  rewrite bool_decide_eq_false_2 by done.
  unfold update_peer, bind, gets. cbn [peer_info set_outbox set_ticks]. rewrite He. reflexivity.
Qed.

Lemma Node_handle_data_new_peer data h st :
  msg_type data = "version" ->
  sender data ∉ peers st ->
  sender data <> "" ->
  claimed_height (message data) = Some h ->
  Node_handle_data data st = (Returns tt, after_handshake (sender data) h st).
Proof.
  intros Ht Hnew Hne Hh.
  assert (Hm : exists m, loads_message (message data) = ret m
                         /\ get "height" m = inr h).
  { destruct (message data) as [| |[| | | | |d]]; simpl in Hh; try done;
      injection Hh as <-; eexists; (split; [reflexivity|reflexivity]). }
  destruct Hm as (m & Hm & Hg).
  unfold Node_handle_data. cbv zeta. rewrite Ht, Hm.
  rewrite (bind_returns (ret m) _ st m st) by reflexivity.
  change (String.eqb "version" "version") with true. cbv iota.
  rewrite bind_assoc, Hg.
  rewrite (bind_returns (lift (inr h)) _ st h st) by reflexivity.
  rewrite bind_assoc.
  rewrite (bind_returns _ _ _ _ _ (register_peer_new (sender data) h st Hnew)).
  cbv iota. rewrite bind_assoc.
  set (st1 := set_peer_info _ _).
  assert (E1 : peer_info st1 !! sender data
               = Some (Peer (sender data) (clock (ticks st)) 0%N h))
    by apply lookup_insert_eq.
  rewrite (bind_returns _ _ _ _ _
             (send_to_registered "verack" Blank _ _ st1 Hne E1)).
  set (st2 := set_ticks _ _).
  rewrite bind_assoc.
  rewrite (bind_returns (gets chain) _ st2 (chain st2) st2) by reflexivity.
  assert (E2 : peer_info st2 !! sender data
               = Some (with_lastsend (clock (ticks st1))
                         (Peer (sender data) (clock (ticks st)) 0%N h)))
    by apply lookup_insert_eq.
  rewrite (bind_returns _ _ _ _ _
             (send_to_registered "version" _ _ _ st2 Hne E2)).
  set (st3 := set_ticks _ _).
  rewrite (bind_returns (gets ready) _ st3 (ready st3) st3) by reflexivity.
  change (String.eqb "version" "heartbeat") with false. cbv iota.
  replace (after_handshake (sender data) h st) with st3;
    [by destruct (ready st3)|].
  apply node_ext; try reflexivity.
  - cbn. rewrite !insert_insert_eq. unfold with_lastsend. cbn.
    by rewrite Nat.add_comm.
  - cbn. rewrite <- app_assoc. reflexivity.
  - cbn. by rewrite Nat.add_comm.
Qed.
Lemma handle_data_new_peer cls data h st :
  msg_type data = "version" ->
  sender data ∉ peers st ->
  sender data <> "" ->
  claimed_height (message data) = Some h ->
  handle_data cls data st = (Returns tt, after_handshake (sender data) h st).
Proof.
  intros Ht Hnew Hne Hh.
  pose proof (Node_handle_data_new_peer data h st Ht Hnew Hne Hh) as HN.
  destruct cls; [exact HN|].
  cbn [handle_data]. unfold BlockchainNode_handle_data.
  rewrite (bind_returns _ _ _ _ _ HN). cbv zeta. rewrite Ht.
  destruct (message data) as [| |j]; [reflexivity|discriminate Hh|reflexivity].
Qed.

(** X1.  The handshake with a new peer: a [version] from a sender that is
    not yet known (and has a non-empty identifier) registers it with the
    height its payload claims ([None] when there is none), answers with a
    [verack] and then a [version] carrying the node's own chain length,
    both targeted at the sender, and returns.  The entry's [lastrecv] is
    the reading taken at registration and its [lastsend] the one taken for
    the second reply. *)
Theorem version_from_new_peer_handshake
    (cls : node_class) (data : envelope) (h : json) (st : node) :
  msg_type data = "version" ->
  sender data ∉ peers st ->
  sender data <> "" ->
  claimed_height (message data) = Some h ->
  handle_data cls data st = (Returns tt, after_handshake (sender data) h st).
Proof. apply handle_data_new_peer. Qed.

Lemma handle_data_verack cls data st :
  msg_type data = "verack" ->
  message data <> Malformed ->
  handle_data cls data st = (Returns tt, set_ready true st).
Proof.
  intros Ht Hm.
  assert (HN : Node_handle_data data st = (Returns tt, set_ready true st)).
  { unfold Node_handle_data. cbv zeta. rewrite Ht.
    destruct (message data) as [| |j]; [|done|]; reflexivity. }
  destruct cls; [exact HN|].
  cbn [handle_data]. unfold BlockchainNode_handle_data.
  rewrite (bind_returns _ _ _ _ _ HN). cbv zeta. rewrite Ht.
  destruct (message data) as [| |j]; [|done|]; reflexivity.
Qed.

(** X2.  A [verack] completes the handshake whoever sends it: the handler
    sets [ready], changes nothing else and sends nothing -- the sender need
    not be a registered peer -- and from then on a [heartbeat] is answered
    with a [heartbeatack] to its sender. *)
Theorem verack_sets_ready_and_enables_heartbeat
    (cls : node_class) (data hb : envelope) (st : node) :
  msg_type data = "verack" ->
  message data <> Malformed ->
  msg_type hb = "heartbeat" ->
  message hb <> Malformed ->
  handle_data cls data st = (Returns tt, set_ready true st)
  /\ outbox (handle_data cls hb (handle_data cls data st).2).2
     = (outbox st ++ [heartbeatack (identifier st) hb])%list.
Proof.
  intros Ht Hm Hb Hbm.
  pose proof (handle_data_verack cls data st Ht Hm) as H.
  split; [exact H|].
  rewrite H. cbn [snd]. by rewrite handle_heartbeat_outbox.
Qed.

Lemma unhandled_type_eqb (type known : string) :
  type ∉ handled_types -> known ∈ handled_types -> String.eqb type known = false.
Proof.
  intros Hn Hk. apply String.eqb_neq. intros ->. done.
Qed.

Lemma handle_data_unhandled cls data st :
  msg_type data ∉ handled_types ->
  message data <> Malformed ->
  handle_data cls data st = (Returns tt, st).
Proof.
  intros Ht Hm.
  assert (E : forall known, In known handled_types ->
                String.eqb (msg_type data) known = false).
  { intros known Hk. apply unhandled_type_eqb; [done|].
    by apply list_elem_of_In. }
  assert (HN : Node_handle_data data st = (Returns tt, st)).
  { unfold Node_handle_data. cbv zeta.
    rewrite !E by (cbn; tauto).
    destruct (message data) as [| |j]; [|done|];
      cbn [loads_message]; unfold bind, gets, ret;
      destruct (ready st); reflexivity. }
  destruct cls; [exact HN|].
  cbn [handle_data]. unfold BlockchainNode_handle_data.
  rewrite (bind_returns _ _ _ _ _ HN). cbv zeta.
  rewrite !E by (cbn; tauto).
  destruct (message data) as [| |j]; [|done|]; reflexivity.
Qed.

Lemma recv_unhandled_type cls data st :
  msg_type data ∉ handled_types ->
  message data <> Malformed ->
  addressed_to (identifier st) data ->
  recv (handle_data cls) (Data data) st
  = match peer_info st !! sender data with
    | Some entry =>
        if bool_decide (sender data ∈ peers st)
        then (Returns tt,
              set_ticks (S (ticks st))
                (set_peer_info
                   (<[sender data := with_lastrecv (clock (ticks st)) entry]>
                      (peer_info st)) st))
        else (Returns tt, st)
    | None =>
        if bool_decide (sender data ∈ peers st)
        then (Raises KeyError, set_ticks (S (ticks st)) st)
        else (Returns tt, st)
    end.
Proof.
  intros Ht Hm Ha. unfold recv. unfold bind at 1. unfold gets at 1.
  rewrite target_filter_passes by done.
  unfold bind at 1. rewrite handle_data_unhandled by done.
  cbv zeta. unfold bind at 1. unfold gets at 1.
  destruct (bool_decide (sender data ∈ peers st)).
  - unfold bind, time, update_peer, bind, gets. cbn [ticks peer_info set_ticks].
    destruct (peer_info st !! sender data); reflexivity.
  - by destruct (peer_info st !! sender data).
Qed.

(** X3.  A frame of a type no handler knows -- [heartbeatack] is one -- is
    accepted without effect, except that it counts as a sign of life: when
    its sender is a registered peer, [recv] sets that peer's [lastrecv] to a
    fresh clock reading and changes nothing else; when the sender is not in
    [peers], the node is exactly as it was and no entry is created.  (A
    sender in [peers] without an entry in [peer_info] makes the bookkeeping
    raise [KeyError].) *)
Theorem recv_unhandled_type_only_touches_lastrecv
    (cls : node_class) (data : envelope) (st : node) :
  msg_type data ∉ handled_types ->
  message data <> Malformed ->
  addressed_to (identifier st) data ->
  recv (handle_data cls) (Data data) st
  = match peer_info st !! sender data with
    | Some entry =>
        if bool_decide (sender data ∈ peers st)
        then (Returns tt,
              set_ticks (S (ticks st))
                (set_peer_info
                   (<[sender data := Peer (peer_identifier entry)
                                       (clock (ticks st)) (lastsend entry)
                                       (height entry)]>
                      (peer_info st)) st))
        else (Returns tt, st)
    | None =>
        if bool_decide (sender data ∈ peers st)
        then (Raises KeyError, set_ticks (S (ticks st)) st)
        else (Returns tt, st)
    end.
Proof. exact (recv_unhandled_type cls data st). Qed.

(** X4.  The two halves of the peer table never drift apart: if
    [self.peers] holds exactly the keys of [self.peer_info] before the
    receive loop runs, it does so after any sequence of polls, whatever
    the packets are and whether the loop ends normally or by an exception. *)
Theorem receive_loop_keeps_peer_table_consistent
    (cls : node_class) (polls : list (option packet)) (st : node) :
  consistent st ->
  consistent (run cls polls st).2.
Proof. apply run_consistent. Qed.

(** X5.  Sending to a silent peer is what gets it evicted.  On a consistent
    peer table, a targeted send to a registered peer succeeds and stamps
    its [lastsend] with the clock; the sweep that follows removes that peer,
    from both halves of the table, exactly when the stamp is more than
    1800 s after the peer's [lastrecv], and otherwise keeps it with the new
    stamp. *)
Theorem send_then_sweep_evicts_silent_peer
    (type : string) (message : text) (target : string) (entry : peer)
    (st : node) :
  consistent st ->
  target <> "" ->
  peer_info st !! target = Some entry ->
  exists st1 st2,
    send type message target st = (Returns tt, st1)
    /\ sweep st1 = (Returns tt, st2)
    /\ outbox st2
       = (outbox st ++ [Envelope type (identifier st) message target])%list
    /\ (1800 < Z.of_N (clock (ticks st)) - Z.of_N (lastrecv entry) ->
         peer_info st2 !! target = None /\ target ∉ peers st2)
    /\ (Z.of_N (clock (ticks st)) - Z.of_N (lastrecv entry) <= 1800 ->
         peer_info st2 !! target
         = Some (Peer (peer_identifier entry) (lastrecv entry)
                   (clock (ticks st)) (height entry))
         /\ target ∈ peers st2).
Proof.
  intros Hc Hne He.
  pose proof (send_to_registered type message target entry st Hne He) as Hsend.
  set (st1 := set_ticks _ _) in Hsend.
  assert (Hc1 : consistent st1).
  { pose proof (send_consistent type message target st Hc) as H.
    by rewrite Hsend in H. }
  destruct (sweep_result st1 Hc1) as (st2 & Hsweep & Hlook & Hps).
  exists st1, st2. split; [exact Hsend|]. split; [exact Hsweep|].
  split.
  { pose proof (sweep_frame outbox (fun _ _ => eq_refl) (fun _ _ => eq_refl) st1) as H.
    rewrite Hsweep in H. simpl in H. rewrite H. reflexivity. }
  assert (E : peer_info st1 !! target
              = Some (with_lastsend (clock (ticks st)) entry))
    by (simpl; apply lookup_insert_eq).
  split.
  - intros Hidle.
    assert (Hi : idle (with_lastsend (clock (ticks st)) entry) = true)
      by (apply idle_spec; exact Hidle).
    assert (Egone : peer_info st2 !! target = None)
      by (by rewrite Hlook, E, Hi).
    split; [exact Egone|]. rewrite Hps, Egone. by intros [? ?].
  - intros Hfresh.
    assert (Hi : idle (with_lastsend (clock (ticks st)) entry) = false).
    { destruct (idle _) eqn:Hi; [|done]. apply idle_spec in Hi.
      unfold silence in Hi. simpl in Hi. lia. }
    assert (Ekept : peer_info st2 !! target
                    = Some (with_lastsend (clock (ticks st)) entry))
      by (by rewrite Hlook, E, Hi).
    split; [exact Ekept|]. rewrite Hps, Ekept. eauto.
Qed.

(** X6.  Hearing from a peer is what keeps it.  On a consistent peer table,
    when a frame of an unhandled type such as [heartbeatack] arrives from a
    registered peer whose last send is at most 1800 s after the clock
    reading taken for the frame, the sweep that follows keeps the peer, with
    [lastrecv] set to that reading. *)
Theorem recv_then_sweep_keeps_live_peer
    (cls : node_class) (data : envelope) (entry : peer) (st : node) :
  consistent st ->
  msg_type data ∉ handled_types ->
  message data <> Malformed ->
  addressed_to (identifier st) data ->
  peer_info st !! sender data = Some entry ->
  Z.of_N (lastsend entry) - Z.of_N (clock (ticks st)) <= 1800 ->
  exists st1 st2,
    recv (handle_data cls) (Data data) st = (Returns tt, st1)
    /\ sweep st1 = (Returns tt, st2)
    /\ peer_info st2 !! sender data
       = Some (Peer (peer_identifier entry) (clock (ticks st))
                 (lastsend entry) (height entry))
    /\ sender data ∈ peers st2.
Proof.
  intros Hc Ht Hm Ha He Hlive.
  pose proof (recv_unhandled_type cls data st Ht Hm Ha)
    as Hrecv.
  rewrite He in Hrecv.
  assert (Hin : sender data ∈ peers st)
    by (rewrite <- Hc; apply elem_of_dom; eauto).
  rewrite bool_decide_eq_true_2 in Hrecv by done.
  set (st1 := set_ticks _ _) in Hrecv.
  assert (Hc1 : consistent st1).
  { pose proof (recv_consistent cls (Data data) st Hc) as H.
    by rewrite Hrecv in H. }
  destruct (sweep_result st1 Hc1) as (st2 & Hsweep & Hlook & Hps).
  exists st1, st2. split; [exact Hrecv|]. split; [exact Hsweep|].
  assert (E : peer_info st1 !! sender data
              = Some (with_lastrecv (clock (ticks st)) entry))
    by (simpl; apply lookup_insert_eq).
  assert (Hi : idle (with_lastrecv (clock (ticks st)) entry) = false).
  { destruct (idle _) eqn:Hi; [|done]. apply idle_spec in Hi.
    unfold silence in Hi. simpl in Hi. lia. }
  assert (Ekept : peer_info st2 !! sender data
                  = Some (with_lastrecv (clock (ticks st)) entry))
    by (by rewrite Hlook, E, Hi).
  split; [exact Ekept|]. rewrite Hps, Ekept. eauto.
Qed.

(** ** [get_peer] *)

Lemma get_peer_from_lookup (ps : list string) (index : Z) : forall i : Z,
  get_peer_from ps i index
  = if index <? i then None else ps !! Z.to_nat (index - i).
Proof.
  induction ps as [|p ps IH]; intros i; simpl.
  - by destruct (index <? i).
  - destruct (i =? index) eqn:E.
    + apply Z.eqb_eq in E as ->. rewrite Z.ltb_irrefl, Z.sub_diag. reflexivity.
    + apply Z.eqb_neq in E. rewrite IH.
      destruct (index <? i) eqn:Hlt.
      * apply Z.ltb_lt in Hlt.
        replace (index <? i + 1) with true by (symmetry; apply Z.ltb_lt; lia).
        reflexivity.
      * apply Z.ltb_ge in Hlt.
        replace (index <? i + 1) with false by (symmetry; apply Z.ltb_ge; lia).
        replace (Z.to_nat (index - i)) with (S (Z.to_nat (index - (i + 1))))
          by lia.
        reflexivity.
Qed.

Lemma get_peer_at (randint : Z -> Z -> Z) (index : Z) (st : node) :
  get_peer randint (Some index) st
  = PeerAt (if index <? 0 then None
            else elements (peers st) !! Z.to_nat index).
Proof.
  unfold get_peer. rewrite get_peer_from_lookup, Z.sub_0_r. reflexivity.
Qed.

(** X7.  [get_peer] enumerates the peer set.  With an index in range it
    returns a registered peer, every registered peer is returned at some
    index, and two indices that return the same peer are equal; with an
    index that is negative or not below the number of peers it returns
    [None] rather than failing.  Without an index it fails with
    [ValueError] on an empty peer set (the range of [randint] is empty),
    and otherwise returns a registered peer whenever the draw is within the
    range asked for. *)
Theorem get_peer_enumerates_peers (randint : Z -> Z -> Z) (st : node) :
  let n := Z.of_nat (size (peers st)) in
  (forall index, 0 <= index < n ->
     exists p, get_peer randint (Some index) st = PeerAt (Some p)
               /\ p ∈ peers st)
  /\ (forall p, p ∈ peers st ->
       exists index, 0 <= index < n
                     /\ get_peer randint (Some index) st = PeerAt (Some p))
  /\ (forall i j p,
       get_peer randint (Some i) st = PeerAt (Some p) ->
       get_peer randint (Some j) st = PeerAt (Some p) -> i = j)
  /\ (forall index, index < 0 \/ n <= index ->
       get_peer randint (Some index) st = PeerAt None)
  /\ (peers st = ∅ -> get_peer randint None st = RaisesValueError)
  /\ (peers st <> ∅ -> 0 <= randint 0 (n - 1) <= n - 1 ->
       exists p, get_peer randint None st = PeerAt (Some p) /\ p ∈ peers st).
Proof.
  intros n.
  assert (Hn : n = Z.of_nat (length (elements (peers st)))) by reflexivity.
  assert (Hin : forall index, 0 <= index < n ->
            exists p, elements (peers st) !! Z.to_nat index = Some p
                      /\ p ∈ peers st).
  { intros index Hi.
    destruct (lookup_lt_is_Some_2 (elements (peers st)) (Z.to_nat index))
      as [p Hp]; [lia|].
    exists p. split; [exact Hp|].
    apply elem_of_elements. eapply list_elem_of_lookup_2. exact Hp. }
  split; [|split; [|split; [|split; [|split]]]].
  - intros index Hi. destruct (Hin index Hi) as (p & Hp & Hmem).
    exists p. split; [|exact Hmem]. rewrite get_peer_at.
    replace (index <? 0) with false by (symmetry; apply Z.ltb_ge; lia).
    by rewrite Hp.
  - intros p Hp. apply elem_of_elements, list_elem_of_lookup_1 in Hp as [i Hi].
    exists (Z.of_nat i). pose proof (lookup_lt_Some _ _ _ Hi).
    split; [lia|]. rewrite get_peer_at.
    replace (Z.of_nat i <? 0) with false by (symmetry; apply Z.ltb_ge; lia).
    by rewrite Nat2Z.id, Hi.
  - intros i j p. rewrite !get_peer_at. intros Hi Hj.
    destruct (i <? 0) eqn:Ei; [done|]. destruct (j <? 0) eqn:Ej; [done|].
    apply Z.ltb_ge in Ei, Ej. injection Hi as Hi. injection Hj as Hj.
    pose proof (NoDup_elements (peers st)) as Hnd.
    assert (Z.to_nat i = Z.to_nat j)
      by (eapply NoDup_lookup; [exact Hnd|exact Hi|exact Hj]).
    lia.
  - intros index Hout. rewrite get_peer_at.
    destruct (index <? 0) eqn:E; [reflexivity|]. apply Z.ltb_ge in E.
    rewrite lookup_ge_None_2; [reflexivity|lia].
  - intros He. unfold get_peer. rewrite He, elements_empty. reflexivity.
  - intros Hne Hdraw.
    assert (0 < n).
    { rewrite Hn. destruct (elements (peers st)) eqn:E; [|simpl; lia].
      apply elements_empty_inv in E. exfalso. apply Hne.
      by apply leibniz_equiv. }
    destruct (Hin (randint 0 (n - 1))) as (p & Hp & Hmem); [lia|].
    exists p. split; [|exact Hmem]. unfold get_peer. fold n.
    replace (Z.of_nat (length (elements (peers st))) - 1) with (n - 1) by lia.
    replace (n - 1 <? 0) with false by (symmetry; apply Z.ltb_ge; lia).
    rewrite get_peer_from_lookup, Z.sub_0_r.
    replace (randint 0 (n - 1) <? 0) with false
      by (symmetry; apply Z.ltb_ge; lia).
    by rewrite Hp.
Qed.

(** ** More on the proof-of-work search *)

Lemma proof_of_work_from_spec (prev_hash : string) (fuel : nat) :
  forall start : Z,
    match proof_of_work_from fuel prev_hash start with
    | Some p =>
        start <= p < start + Z.of_nat fuel
        /\ valid_proof prev_hash p = true
        /\ forall q, start <= q < p -> valid_proof prev_hash q = false
    | None =>
        forall q, start <= q < start + Z.of_nat fuel ->
                  valid_proof prev_hash q = false
    end.
Proof.
  induction fuel as [|fuel IH]; intros start.
  - simpl. intros q Hq. lia.
  - cbn [proof_of_work_from]. destruct (valid_proof prev_hash start) eqn:Hs.
    + split; [lia|]. split; [exact Hs|]. intros q Hq. lia.
    + specialize (IH (start + 1)).
      destruct (proof_of_work_from fuel prev_hash (start + 1)) as [p|].
      * destruct IH as (Hr & Hp & Hleast). split; [lia|]. split; [exact Hp|].
        intros q Hq. destruct (decide (q = start)) as [->|]; [exact Hs|].
        apply Hleast. lia.
      * intros q Hq. destruct (decide (q = start)) as [->|]; [exact Hs|].
        apply IH. lia.
Qed.

(** X8.  What the search has done when it is cut short.  After [fuel]
    iterations the loop has either returned a proof below [fuel] that is
    valid and before which every candidate from 0 on is invalid, or it is
    still running and every candidate below [fuel] is invalid; so when no
    non-negative integer is a valid proof the loop never returns, however
    long it runs. *)
Theorem proof_of_work_only_stops_on_valid_proof
    (prev_hash : string) (fuel : nat) :
  match proof_of_work fuel prev_hash with
  | Some p =>
      0 <= p < Z.of_nat fuel
      /\ valid_proof prev_hash p = true
      /\ forall q, 0 <= q < p -> valid_proof prev_hash q = false
  | None =>
      forall q, 0 <= q < Z.of_nat fuel -> valid_proof prev_hash q = false
  end
  /\ ((forall q, 0 <= q -> valid_proof prev_hash q = false) ->
      proof_of_work fuel prev_hash = None).
Proof.
  pose proof (proof_of_work_from_spec prev_hash fuel 0) as H.
  unfold proof_of_work. split.
  - destruct (proof_of_work_from fuel prev_hash 0) as [p|].
    + destruct H as (Hr & Hp & Hleast). split; [lia|]. split; [exact Hp|].
      exact Hleast.
    + intros q Hq. apply H. lia.
  - intros Hnone. destruct (proof_of_work_from fuel prev_hash 0) as [p|];
      [|reflexivity].
    destruct H as (Hr & Hp & _). rewrite Hnone in Hp by lia. done.
Qed.

(** ** What message handling can and cannot change *)

Section HandlerInvariant.

Variable I : node -> Prop.
Hypothesis HS : session_invariant I.

Lemma maintains_modify (g : node -> node) :
  (forall st, I st -> I (g st)) -> maintains I (modify g).
Proof. intros H st HI. by apply H. Qed.

Lemma time_maintains : maintains I time.
Proof using HS. intros st HI. by apply (inv_ticks I HS). Qed.

Lemma update_peer_maintains key f : maintains I (update_peer key f).
Proof using HS.
  intros st HI. unfold update_peer, bind, gets.
  destruct (peer_info st !! key); simpl; [|exact HI].
  by apply (inv_entry I HS).
Qed.

Lemma send_maintains type message target :
  maintains I (send type message target).
Proof using HS.
  intros st HI. unfold send. unfold bind at 1. unfold gets at 1.
  unfold bind at 1. unfold transmit, modify at 1.
  match goal with |- I (?m ?st1).2 =>
    assert (Hm : maintains I m); [|apply Hm] end.
  - destruct (bool_decide _).
    + apply maintains_bind; [apply maintains_gets|intros ps].
      apply maintains_for_each. intros x.
      apply maintains_bind; [apply time_maintains|intros t].
      apply update_peer_maintains.
    + apply maintains_bind; [apply time_maintains|intros t].
      apply update_peer_maintains.
  - by apply (inv_transmit I HS).
Qed.

Lemma register_peer_maintains identifier height :
  maintains I (register_peer identifier height).
Proof using HS.
  unfold register_peer.
  apply maintains_bind; [apply maintains_gets|intros ps].
  destruct (bool_decide _); [apply maintains_ret|].
  apply maintains_bind.
  { apply maintains_modify. intros st HI. by apply (inv_add_peer I HS). }
  intros _. apply maintains_bind; [apply time_maintains|intros t].
  apply maintains_bind; [|intros _; apply maintains_ret].
  apply maintains_modify. intros st HI. by apply (inv_entry I HS).
Qed.

Lemma loads_message_maintains m : maintains I (loads_message m).
Proof. destruct m; [apply maintains_ret|apply maintains_raise|apply maintains_ret]. Qed.

Lemma Node_handle_data_maintains data : maintains I (Node_handle_data data).
Proof using HS.
  unfold Node_handle_data. cbv zeta.
  apply maintains_bind; [apply loads_message_maintains|intros m].
  apply maintains_bind.
  - destruct (String.eqb _ "version").
    + apply maintains_bind; [apply maintains_lift|intros h].
      apply maintains_bind; [apply register_peer_maintains|].
      intros [|]; [|apply maintains_ret].
      apply maintains_bind; [apply send_maintains|intros _].
      apply maintains_bind; [apply maintains_gets|intros c].
      apply send_maintains.
    + destruct (String.eqb _ "verack"); [|apply maintains_ret].
      apply maintains_modify. intros st HI. by apply (inv_ready I HS).
  - intros _. apply maintains_bind; [apply maintains_gets|intros r].
    destruct r; [|apply maintains_ret].
    destruct (String.eqb _ _); [|apply maintains_ret].
    apply send_maintains.
Qed.

Lemma send_heartbeat_maintains fuel : maintains I (send_heartbeat fuel).
Proof using HS.
  induction fuel as [|fuel IH]; simpl; [apply maintains_ret|].
  apply maintains_bind; [apply maintains_gets|intros l].
  apply maintains_bind; [apply maintains_gets|intros r].
  destruct (l && r); [|apply maintains_ret].
  apply maintains_bind; [apply send_maintains|intros _]. exact IH.
Qed.

Lemma recv_tail_maintains (sender : string) :
  maintains I
    (do ps <- gets peers;
     if bool_decide (sender ∈ ps) then
       do t <- time; update_peer sender (with_lastrecv t)
     else ret tt).
Proof using HS.
  apply maintains_bind; [apply maintains_gets|intros ps].
  destruct (bool_decide _); [|apply maintains_ret].
  apply maintains_bind; [apply time_maintains|intros t].
  apply update_peer_maintains.
Qed.

Lemma recv_maintains (handler : envelope -> M unit) p :
  (forall data, maintains I (handler data)) ->
  maintains I (recv handler p).
Proof using HS.
  intros Hh. destruct p as [|data]; simpl; [apply maintains_raise|].
  apply maintains_bind; [apply maintains_gets|intros self].
  destruct (_ && _); [apply maintains_ret|].
  apply maintains_bind; [apply Hh|intros _]. apply recv_tail_maintains.
Qed.

Hypothesis HL : ledger_invariant I.

Lemma resolve_conflicts_maintains : maintains I resolve_conflicts.
Proof using HS HL.
  unfold resolve_conflicts.
  do 3 (apply maintains_bind; [apply maintains_gets|intros ?]).
  apply maintains_bind; [apply maintains_lift|intros best].
  assert (Hs : maintains I (modify (set_synced true)))
    by (apply maintains_modify; intros st HI; by apply (inv_synced I HL)).
  destruct (best.2) as [p|]; [|exact Hs].
  destruct (bool_decide _); [exact Hs|]. apply send_maintains.
Qed.

Lemma SPVNode_resolve_conflicts_maintains :
  maintains I SPVNode_resolve_conflicts.
Proof using HS HL.
  unfold SPVNode_resolve_conflicts.
  do 3 (apply maintains_bind; [apply maintains_gets|intros ?]).
  apply maintains_bind; [apply maintains_lift|intros best].
  assert (Hs : maintains I (modify (set_synced true)))
    by (apply maintains_modify; intros st HI; by apply (inv_synced I HL)).
  destruct (best.2) as [p|]; [|exact Hs].
  destruct (bool_decide _); [exact Hs|]. apply send_maintains.
Qed.

Lemma merge_tx_info_maintains tx : maintains I (merge_tx_info tx).
Proof using HL.
  unfold merge_tx_info. destruct tx; try apply maintains_raise.
  apply maintains_modify. intros st HI. by apply (inv_tx_info I HL).
Qed.

Lemma set_chain_maintains c : maintains I (modify (set_chain c)).
Proof using HL. apply maintains_modify. intros st HI. by apply (inv_chain I HL). Qed.

Lemma set_synced_maintains : maintains I (modify (set_synced true)).
Proof using HL. apply maintains_modify. intros st HI. by apply (inv_synced I HL). Qed.

Lemma BlockchainNode_handle_data_maintains data :
  maintains I (BlockchainNode_handle_data data).
Proof using HS HL.
  unfold BlockchainNode_handle_data. cbv zeta.
  apply maintains_bind; [apply Node_handle_data_maintains|intros _].
  apply maintains_bind; [apply loads_message_maintains|intros m].
  destruct (String.eqb _ "getdata").
  { do 2 (apply maintains_bind; [apply maintains_gets|intros ?]).
    apply send_maintains. }
  destruct (String.eqb _ "getheaders").
  { apply maintains_bind; [apply maintains_gets|intros ?].
    apply maintains_bind; [apply maintains_lift|intros ?].
    apply send_maintains. }
  destruct (String.eqb _ "chain").
  { do 2 (apply maintains_bind; [apply maintains_lift|intros ?]).
    apply maintains_bind; [apply maintains_gets|intros ?].
    apply maintains_bind.
    - destruct (bool_decide _); [|apply maintains_ret].
      apply maintains_bind; [apply maintains_lift|intros n].
      apply update_peer_maintains.
    - intros _. destruct (valid_chain _); [|apply resolve_conflicts_maintains].
      apply maintains_bind; [apply set_chain_maintains|intros _].
      apply maintains_bind; [apply merge_tx_info_maintains|intros _].
      apply set_synced_maintains. }
  destruct (String.eqb _ "addblock"); [|apply maintains_ret].
  do 3 (apply maintains_bind; [apply maintains_lift|intros ?]).
  apply maintains_bind; [apply maintains_gets|intros ?].
  apply maintains_bind.
  - destruct (bool_decide _); [|apply maintains_ret].
    apply update_peer_maintains.
  - intros _. apply maintains_bind; [apply maintains_gets|intros c].
    destruct (valid_chain _); [|apply resolve_conflicts_maintains].
    apply maintains_bind; [apply set_chain_maintains|intros _].
    apply merge_tx_info_maintains.
Qed.

Lemma SPVNode_handle_data_maintains data :
  maintains I (SPVNode_handle_data data).
Proof using HS HL.
  unfold SPVNode_handle_data. cbv zeta.
  apply maintains_bind; [apply Node_handle_data_maintains|intros _].
  apply maintains_bind; [apply loads_message_maintains|intros m].
  destruct (String.eqb _ "getheaders").
  { apply maintains_bind; [apply maintains_gets|intros ?].
    apply send_maintains. }
  destruct (String.eqb _ "headers").
  { apply maintains_bind; [apply maintains_lift|intros ?].
    apply maintains_bind; [apply maintains_gets|intros ?].
    apply maintains_bind.
    - destruct (bool_decide _); [|apply maintains_ret].
      apply maintains_bind; [apply maintains_lift|intros n].
      apply update_peer_maintains.
    - intros _.
      destruct (valid_headers _); [|apply SPVNode_resolve_conflicts_maintains].
      apply maintains_bind; [apply set_chain_maintains|intros _].
      apply set_synced_maintains. }
  destruct (String.eqb _ "addblock"); [|apply maintains_ret].
  do 3 (apply maintains_bind; [apply maintains_lift|intros ?]).
  apply maintains_bind; [apply maintains_gets|intros ?].
  apply maintains_bind.
  - destruct (bool_decide _); [|apply maintains_ret].
    apply update_peer_maintains.
  - intros _. apply maintains_bind; [apply maintains_gets|intros c].
    destruct (valid_chain _); [|apply SPVNode_resolve_conflicts_maintains].
    apply set_chain_maintains.
Qed.

Lemma handle_data_maintains cls data : maintains I (handle_data cls data).
Proof using HS HL.
  destruct cls; simpl.
  - apply Node_handle_data_maintains.
  - apply BlockchainNode_handle_data_maintains.
Qed.

Hypothesis Hinfo : forall m st, I st -> I (set_peer_info m st).
Hypothesis Hpeers : forall ps st, I st -> I (set_peers ps st).

Lemma sweep_maintains : maintains I sweep.
Proof using Hinfo Hpeers.
  unfold sweep. apply maintains_bind; [apply maintains_gets|intros info].
  apply maintains_for_each. intros peer_id. apply maintains_bind.
  - apply maintains_bind; [apply maintains_gets|intros info'].
    destruct (info' !! peer_id); [|apply maintains_raise].
    apply maintains_modify. intros st HI. by apply Hinfo.
  - intros _. apply maintains_bind; [apply maintains_gets|intros ps].
    destruct (bool_decide _); [|apply maintains_raise].
    apply maintains_modify. intros st HI. by apply Hpeers.
Qed.

Lemma run_maintains cls polls : maintains I (run cls polls).
Proof using HS HL Hinfo Hpeers.
  induction polls as [|poll polls IH]; simpl; [apply maintains_ret|].
  apply maintains_bind; [apply maintains_gets|intros listening].
  destruct listening; [|apply maintains_ret].
  apply maintains_bind; [apply sweep_maintains|intros _].
  apply maintains_bind; [|intros _; exact IH].
  destruct poll; [|apply maintains_ret].
  apply recv_maintains. apply handle_data_maintains.
Qed.

End HandlerInvariant.


(** X10.  A plain [Node] never touches the ledger: whatever is polled, its
    receive loop leaves the chain, [tx_info] and [synced] as they were. *)
Theorem plain_node_leaves_ledger_alone
    (polls : list (option packet)) (st : node) :
  chain (run Node polls st).2 = chain st
  /\ tx_info (run Node polls st).2 = tx_info st
  /\ synced (run Node polls st).2 = synced st.
Proof.
  set (I := fun s => chain s = chain st /\ tx_info s = tx_info st
                     /\ synced s = synced st).
  assert (HS : session_invariant I) by (by split).
  assert (H : forall polls, maintains I (run Node polls)).
  { clear polls. intros polls.
    induction polls as [|poll polls IH]; simpl; [apply maintains_ret|].
    apply maintains_bind; [apply maintains_gets|intros listening].
    destruct listening; [|apply maintains_ret].
    apply maintains_bind; [by apply sweep_maintains|intros _].
    apply maintains_bind; [|intros _; exact IH].
    destruct poll; [|apply maintains_ret].
    apply recv_maintains; [exact HS|]. intros data.
    by apply Node_handle_data_maintains. }
  by apply H.
Qed.

(** X11.  Message handling never forgets a peer: after [recv], with the
    handler of any of the three classes, every identifier that was in
    [peers] is still there and every key of [peer_info] is still a key.
    Only the sweep removes peers. *)
Theorem recv_never_removes_peers
    (cls : node_class) (p : packet) (st : node) :
  (peers st ⊆ peers (recv (handle_data cls) p st).2
   /\ dom (peer_info st) ⊆ dom (peer_info (recv (handle_data cls) p st).2))
  /\ (peers st ⊆ peers (recv SPVNode_handle_data p st).2
      /\ dom (peer_info st) ⊆ dom (peer_info (recv SPVNode_handle_data p st).2)).
Proof.
  set (I := fun s => peers st ⊆ peers s
                     /\ dom (peer_info st) ⊆ dom (peer_info s)).
  assert (HS : session_invariant I).
  { split; unfold I; cbn.
    - intros k v s [H1 H2]. split; [exact H1|]. rewrite dom_insert_L.
      intros x Hx. apply elem_of_union_r. by apply H2.
    - intros q s [H1 H2]. split; [|exact H2].
      intros x Hx. apply elem_of_union_r. by apply H1.
    - intros n s H. exact H.
    - intros frame s _ H. exact H.
    - intros s H. exact H. }
  assert (HL : ledger_invariant I) by (by split).
  assert (H0 : I st) by (by split).
  split.
  - apply (recv_maintains I HS); [|exact H0].
    intros data. by apply handle_data_maintains.
  - apply (recv_maintains I HS); [|exact H0].
    intros data. by apply SPVNode_handle_data_maintains.
Qed.

(** X12.  The outbox is a log, and the node signs what it sends: whatever
    is polled, the receive loop only appends to the outbox, and every frame
    it appends carries the node's own identifier as its sender. *)
Theorem receive_loop_appends_signed_frames
    (cls : node_class) (polls : list (option packet)) (st : node) :
  exists added,
    outbox (run cls polls st).2 = (outbox st ++ added)%list
    /\ Forall (fun frame => sender frame = identifier st) added.
Proof.
  set (I := fun s => identifier s = identifier st
                     /\ exists added,
                          outbox s = (outbox st ++ added)%list
                          /\ Forall (fun frame => sender frame = identifier st) added).
  assert (HS : session_invariant I).
  { split; intros; unfold I in *; simpl; try done.
    destruct H0 as (Hid & added & Ho & Hall). split; [done|].
    exists (added ++ [frame])%list. split.
    - by rewrite Ho, app_assoc.
    - apply Forall_app. split; [done|]. apply Forall_singleton. congruence. }
  assert (HL : ledger_invariant I) by (by split).
  assert (H0 : I st).
  { split; [done|]. exists []. by rewrite app_nil_r. }
  destruct (run_maintains I HS HL (fun _ _ H => H) (fun _ _ H => H) cls polls st H0)
    as (_ & H).
  exact H.
Qed.

(** ** Conflict resolution on a poisoned peer table *)





(** ** Serving and accepting chains *)

Lemma bind_ret {A B} (a : A) (k : A -> M B) st : bind (ret a) k st = k a st.
Proof. reflexivity. Qed.

Lemma bind_gets {A B} (f : node -> A) (k : A -> M B) st :
  bind (gets f) k st = k (f st) st.
Proof. reflexivity. Qed.

Lemma bind_modify {B} (g : node -> node) (k : unit -> M B) st :
  bind (modify g) k st = k tt (g st).
Proof. reflexivity. Qed.

Lemma bind_lift_inr {A B} (r : exn + A) a (k : A -> M B) st :
  r = inr a -> bind (lift r) k st = k a st.
Proof. by intros ->. Qed.

Lemma bind_lift_inl {A B} (r : exn + A) e (k : A -> M B) st :
  r = inl e -> bind (lift r) k st = (Raises e, st).
Proof. by intros ->. Qed.

Lemma getitem_present k d v : assoc k d = Some v -> getitem k (JDict d) = inr v.
Proof. intros H. cbn [getitem]. by rewrite H. Qed.

Lemma getitem_absent k d : assoc k d = None -> getitem k (JDict d) = inl KeyError.
Proof. intros H. cbn [getitem]. by rewrite H. Qed.

(** [Node.handle_data] on a frame that is none of its own. *)
Lemma Node_handle_data_quiet data st :
  msg_type data <> "version" ->
  msg_type data <> "verack" ->
  msg_type data <> "heartbeat" ->
  message data <> Malformed ->
  Node_handle_data data st = (Returns tt, st).
Proof.
  intros H1 H2 H3 Hm. unfold Node_handle_data. cbv zeta.
  rewrite (proj2 (String.eqb_neq _ _) H1), (proj2 (String.eqb_neq _ _) H2),
    (proj2 (String.eqb_neq _ _) H3).
  destruct (message data) as [| |j]; [|done|];
    cbn [loads_message]; unfold bind, gets, ret;
    destruct (ready st); reflexivity.
Qed.

Lemma note_height_frame {A} (f : node -> A) p h st :
  (forall m s, f (set_peer_info m s) = f s) ->
  f (note_height p h st) = f st.
Proof. intros H. unfold note_height. destruct (_ !! _); [apply H|done]. Qed.

(** The update of the sender's height, on a consistent table. *)
Lemma note_height_run p h st :
  consistent st ->
  (if bool_decide (p ∈ peers st) then update_peer p (with_height h) else ret tt) st
  = (Returns tt, note_height p h st).
Proof.
  intros Hc. unfold note_height. case_bool_decide as Hp.
  - rewrite <- Hc in Hp. apply elem_of_dom in Hp as [e He].
    unfold update_peer. rewrite bind_gets, He. reflexivity.
  - rewrite <- Hc in Hp. apply not_elem_of_dom in Hp. rewrite Hp. reflexivity.
Qed.

Lemma note_length_run p (c : list json) st :
  consistent st ->
  (if bool_decide (p ∈ peers st)
   then do n <- lift (len (JList c)); update_peer p (with_height (JNum n))
   else ret tt) st
  = (Returns tt, note_height p (JNum (Z.of_nat (length c))) st).
Proof. intros Hc. exact (note_height_run p _ st Hc). Qed.

Ltac pick_branch :=
  repeat match goal with
  | |- context [String.eqb ?a ?b] =>
      let v := eval vm_compute in (String.eqb a b) in
      progress change (String.eqb a b) with v
  end; cbv beta iota.

Lemma handle_getdata data entry st :
  msg_type data = "getdata" ->
  message data <> Malformed ->
  sender data <> "" ->
  peer_info st !! sender data = Some entry ->
  handle_data BlockchainNode data st
  = (Returns tt, after_send "chain" (chain_payload st) (sender data) entry st).
Proof.
  intros Ht Hm Hne He.
  assert (HN : Node_handle_data data st = (Returns tt, st))
    by (apply Node_handle_data_quiet; rewrite ?Ht; done).
  cbn [handle_data]. unfold BlockchainNode_handle_data.
  rewrite (bind_returns _ _ _ _ _ HN). cbv zeta. rewrite Ht. pick_branch.
  assert (HL : exists j, loads_message (message data) st = (Returns j, st)).
  { destruct (message data) as [| |j]; [|done|]; eexists; reflexivity. }
  destruct HL as [j HL]. rewrite (bind_returns _ _ _ _ _ HL).
  rewrite !bind_gets. by apply send_to_registered.
Qed.

Lemma handle_chain_accepted data d c tx st :
  msg_type data = "chain" ->
  message data = Denotes (JDict d) ->
  assoc "chain" d = Some (JList c) ->
  assoc "tx_info" d = Some (JDict tx) ->
  consistent st ->
  valid_chain (JList c) = true ->
  handle_data BlockchainNode data st
  = (Returns tt,
     set_synced true
       (set_tx_info (dict_merge (tx_info st) tx)
          (set_chain c
             (note_height (sender data) (JNum (Z.of_nat (length c))) st)))).
Proof.
  intros Ht Hm Hc Htx Hcons Hv.
  assert (HN : Node_handle_data data st = (Returns tt, st))
    by (apply Node_handle_data_quiet; rewrite ?Ht, ?Hm; done).
  cbn [handle_data]. unfold BlockchainNode_handle_data.
  rewrite (bind_returns _ _ _ _ _ HN). cbv zeta. rewrite Ht, Hm. pick_branch.
  cbn [loads_message]. rewrite bind_ret.
  rewrite (bind_lift_inr _ _ _ _ (getitem_present _ _ _ Hc)).
  rewrite (bind_lift_inr _ _ _ _ (getitem_present _ _ _ Htx)).
  rewrite bind_gets.
  rewrite (bind_returns _ _ _ _ _ (note_length_run (sender data) c st Hcons)).
  rewrite Hv. rewrite bind_modify. cbn [merge_tx_info]. rewrite bind_modify.
  unfold modify. cbn [blocks_of]. do 3 f_equal.
  cbn [tx_info set_chain]. by rewrite (note_height_frame tx_info).
Qed.

(** X16.  A chain asked for is a chain served and, when valid, installed.
    A [getdata] from a registered peer is answered with one [chain] frame,
    targeted at the asker, that carries the node's chain and [tx_info]; the
    node's own chain stays as it is.  When the receiver, with a consistent
    peer table, handles that frame and [valid_chain] accepts the chain, it
    ends with the sender's chain, with [tx_info] merged over its own and
    [synced] set, having noted the chain's length as the sender's height
    and sent nothing. *)
Theorem getdata_chain_round_trip
    (request : envelope) (entry : peer) (a b : node) :
  msg_type request = "getdata" ->
  message request <> Malformed ->
  sender request <> "" ->
  peer_info a !! sender request = Some entry ->
  consistent b ->
  valid_chain (JList (chain a)) = true ->
  let reply :=
    Envelope "chain" (identifier a) (chain_payload a) (sender request) in
  handle_data BlockchainNode request a
  = (Returns tt, after_send "chain" (chain_payload a) (sender request) entry a)
  /\ outbox (after_send "chain" (chain_payload a) (sender request) entry a)
     = (outbox a ++ [reply])%list
  /\ handle_data BlockchainNode reply b
     = (Returns tt,
        set_synced true
          (set_tx_info (dict_merge (tx_info b) (tx_info a))
             (set_chain (chain a)
                (note_height (identifier a)
                   (JNum (Z.of_nat (length (chain a)))) b)))).
Proof.
  intros Ht Hm Hne He Hc Hv reply.
  split; [by apply handle_getdata|]. split; [reflexivity|].
  by apply (handle_chain_accepted reply
              [("chain", JList (chain a)); ("tx_info", JDict (tx_info a))]).
Qed.

Lemma handle_addblock_accepted data d block h tx st :
  msg_type data = "addblock" ->
  message data = Denotes (JDict d) ->
  assoc "block" d = Some block ->
  assoc "height" d = Some h ->
  assoc "tx_info" d = Some (JDict tx) ->
  consistent st ->
  valid_chain (JList (chain st ++ [block])) = true ->
  handle_data BlockchainNode data st
  = (Returns tt,
     set_tx_info (dict_merge (tx_info st) tx)
       (set_chain (chain st ++ [block]) (note_height (sender data) h st))).
Proof.
  intros Ht Hm Hb Hh Htx Hcons Hv.
  assert (HN : Node_handle_data data st = (Returns tt, st))
    by (apply Node_handle_data_quiet; rewrite ?Ht, ?Hm; done).
  cbn [handle_data]. unfold BlockchainNode_handle_data.
  rewrite (bind_returns _ _ _ _ _ HN). cbv zeta. rewrite Ht, Hm. pick_branch.
  cbn [loads_message]. rewrite bind_ret.
  rewrite (bind_lift_inr _ _ _ _ (getitem_present _ _ _ Hb)).
  rewrite (bind_lift_inr _ _ _ _ (getitem_present _ _ _ Hh)).
  rewrite (bind_lift_inr _ _ _ _ (getitem_present _ _ _ Htx)).
  rewrite bind_gets.
  rewrite (bind_returns _ _ _ _ _ (note_height_run (sender data) h st Hcons)).
  rewrite bind_gets. rewrite (note_height_frame chain) by done.
  rewrite Hv. rewrite bind_modify. cbn [merge_tx_info].
  unfold modify. do 2 f_equal.
  cbn [tx_info set_chain]. by rewrite (note_height_frame tx_info).
Qed.

(** X17.  A block that extends the chain is taken in silence.  When an
    [addblock] arrives whose block, appended to the node's chain, gives a
    chain [valid_chain] accepts, the handler (on a consistent peer table)
    appends the block, merges the payload's [tx_info] over its own and
    notes the announced height, whatever it is, in the sender's entry.  It
    sends nothing -- the block is not passed on to other peers -- and
    leaves [synced] as it was. *)
Theorem valid_addblock_is_appended_silently
    (data : envelope) (d : list (string * json)) (block h : json)
    (tx : list (string * json)) (st : node) :
  msg_type data = "addblock" ->
  message data = Denotes (JDict d) ->
  assoc "block" d = Some block ->
  assoc "height" d = Some h ->
  assoc "tx_info" d = Some (JDict tx) ->
  consistent st ->
  valid_chain (JList (chain st ++ [block])) = true ->
  exists st',
    handle_data BlockchainNode data st = (Returns tt, st')
    /\ st' = set_tx_info (dict_merge (tx_info st) tx)
               (set_chain (chain st ++ [block])
                  (note_height (sender data) h st))
    /\ outbox st' = outbox st
    /\ synced st' = synced st
    /\ peers st' = peers st.
Proof.
  intros Ht Hm Hb Hh Htx Hcons Hv. eexists.
  split; [by eapply handle_addblock_accepted|]. split; [reflexivity|].
  cbn [outbox synced peers set_tx_info set_chain].
  by rewrite (note_height_frame outbox), (note_height_frame synced),
    (note_height_frame peers).
Qed.

Lemma lacks_loads k m st :
  lacks k m ->
  exists d, loads_message m st = (Returns (JDict d), st) /\ assoc k d = None.
Proof.
  destruct m as [| |[| | | | |d]]; try done; intros H.
  - by exists [].
  - by exists d.
Qed.

Lemma handle_incomplete_payload data k st :
  k ∈ required_keys (msg_type data) ->
  lacks k (message data) ->
  handle_data BlockchainNode data st = (Raises KeyError, st).
Proof.
  intros Hk Hl.
  assert (Hm : message data <> Malformed) by (intros E; by rewrite E in Hl).
  destruct (lacks_loads k _ st Hl) as (d & Hload & Hnone).
  unfold required_keys in Hk.
  destruct (String.eqb (msg_type data) "chain") eqn:E1.
  - apply String.eqb_eq in E1.
    assert (HN : Node_handle_data data st = (Returns tt, st))
      by (apply Node_handle_data_quiet; rewrite ?E1; done).
    cbn [handle_data]. unfold BlockchainNode_handle_data.
    rewrite (bind_returns _ _ _ _ _ HN). cbv zeta. rewrite E1. pick_branch.
    rewrite (bind_returns _ _ _ _ _ Hload).
    destruct (assoc "chain" d) as [c|] eqn:Ec;
      [|by rewrite (bind_lift_inl _ _ _ _ (getitem_absent _ _ Ec))].
    rewrite (bind_lift_inr _ _ _ _ (getitem_present _ _ _ Ec)).
    destruct (assoc "tx_info" d) as [tx|] eqn:Etx;
      [|by rewrite (bind_lift_inl _ _ _ _ (getitem_absent _ _ Etx))].
    exfalso. apply elem_of_cons in Hk as [->|Hk]; [congruence|].
    apply elem_of_cons in Hk as [->|Hk]; [congruence|].
    by apply not_elem_of_nil in Hk.
  - destruct (String.eqb (msg_type data) "addblock") eqn:E2;
      [|by apply not_elem_of_nil in Hk].
    apply String.eqb_eq in E2.
    assert (HN : Node_handle_data data st = (Returns tt, st))
      by (apply Node_handle_data_quiet; rewrite ?E2; done).
    cbn [handle_data]. unfold BlockchainNode_handle_data.
    rewrite (bind_returns _ _ _ _ _ HN). cbv zeta. rewrite E2. pick_branch.
    rewrite (bind_returns _ _ _ _ _ Hload).
    destruct (assoc "block" d) as [b|] eqn:Eb;
      [|by rewrite (bind_lift_inl _ _ _ _ (getitem_absent _ _ Eb))].
    rewrite (bind_lift_inr _ _ _ _ (getitem_present _ _ _ Eb)).
    destruct (assoc "height" d) as [h|] eqn:Eh;
      [|by rewrite (bind_lift_inl _ _ _ _ (getitem_absent _ _ Eh))].
    rewrite (bind_lift_inr _ _ _ _ (getitem_present _ _ _ Eh)).
    destruct (assoc "tx_info" d) as [tx|] eqn:Etx;
      [|by rewrite (bind_lift_inl _ _ _ _ (getitem_absent _ _ Etx))].
    exfalso. apply elem_of_cons in Hk as [->|Hk]; [congruence|].
    apply elem_of_cons in Hk as [->|Hk]; [congruence|].
    apply elem_of_cons in Hk as [->|Hk]; [congruence|].
    by apply not_elem_of_nil in Hk.
Qed.

(** X18.  A [chain] or [addblock] frame whose payload is empty, or is an
    object without one of the keys the branch subscripts it with, makes
    the handler raise [KeyError] before anything is changed: the sender's
    height is not noted, nothing is sent, and [recv] passes the error on
    without updating the sender's [lastrecv]. *)
Theorem incomplete_payload_raises_KeyError
    (data : envelope) (k : string) (st : node) :
  k ∈ required_keys (msg_type data) ->
  lacks k (message data) ->
  addressed_to (identifier st) data ->
  handle_data BlockchainNode data st = (Raises KeyError, st)
  /\ recv (handle_data BlockchainNode) (Data data) st = (Raises KeyError, st).
Proof.
  intros Hk Hl Ha.
  pose proof (handle_incomplete_payload data k st Hk Hl) as H.
  split; [exact H|].
  unfold recv. unfold bind at 1. unfold gets at 1.
  rewrite target_filter_passes by done.
  unfold bind at 1. by rewrite H.
Qed.

(** ** Merging [tx_info] *)

Lemma assoc_dict_set k k' v d :
  assoc k (dict_set k' v d) = if String.eqb k k' then Some v else assoc k d.
Proof.
  induction d as [|[k0 v0] d IH]; cbn [dict_set assoc].
  - reflexivity.
  - destruct (String.eqb k' k0) eqn:E0; cbn [assoc].
    + apply String.eqb_eq in E0 as ->.
      by destruct (String.eqb k k0).
    + destruct (String.eqb k k0) eqn:E1.
      * apply String.eqb_eq in E1 as ->.
        rewrite String.eqb_sym in E0. by rewrite E0.
      * exact IH.
Qed.

Lemma assoc_dict_merge k (b : list (string * json)) : forall a,
  NoDup b.*1 ->
  assoc k (dict_merge a b)
  = match assoc k b with Some v => Some v | None => assoc k a end.
Proof.
  unfold dict_merge.
  induction b as [|[k0 v0] b IH]; intros a Hnd; cbn [fold_left assoc].
  - reflexivity.
  - cbn [fmap list_fmap fst] in Hnd. apply NoDup_cons in Hnd as [Hk0 Hnd].
    rewrite IH by done. cbn [fst snd].
    destruct (String.eqb k k0) eqn:E.
    + apply String.eqb_eq in E as ->.
      assert (Hb : assoc k0 b = None).
      { clear -Hk0. induction b as [|[k1 v1] b IH]; [done|].
        cbn [assoc]. cbn [fmap list_fmap fst] in Hk0.
        apply not_elem_of_cons in Hk0 as [Hne Hk0].
        rewrite (proj2 (String.eqb_neq _ _) Hne). by apply IH. }
      rewrite Hb, assoc_dict_set, String.eqb_refl. reflexivity.
    + rewrite assoc_dict_set, E. reflexivity.
Qed.

(** X19.  What the merge [{**self.blockchain.tx_info, **tx_info}] comes
    to.  For a payload [tx_info] that is an object (its keys distinct, as
    the keys of a decoded object are), the merge returns and a key looked
    up afterwards has the payload's value when the payload has the key and
    the node's old value otherwise; no key is lost.  A [tx_info] that is
    not an object makes the merge raise [TypeError], leaving the node as
    it is. *)
Theorem merge_tx_info_prefers_payload (tx : json) (st : node) :
  (forall b, tx = JDict b -> NoDup b.*1 ->
     merge_tx_info tx st
     = (Returns tt, set_tx_info (dict_merge (tx_info st) b) st)
     /\ forall k, assoc k (dict_merge (tx_info st) b)
                  = match assoc k b with
                    | Some v => Some v
                    | None => assoc k (tx_info st)
                    end)
  /\ ((forall b, tx <> JDict b) -> merge_tx_info tx st = (Raises TypeError, st)).
Proof.
  split.
  - intros b -> Hnd. split; [reflexivity|].
    intros k. by apply assoc_dict_merge.
  - intros Hno. destruct tx; try reflexivity. by destruct (Hno d).
Qed.

(** ** The heartbeat loop *)




(** ** The sweep, once more *)

Lemma sweep_nothing_idle st :
  (forall p info, peer_info st !! p = Some info -> idle info = false) ->
  sweep st = (Returns tt, st).
Proof.
  intros H. unfold sweep. rewrite bind_gets.
  assert (E : filter (fun kv : string * peer => idle kv.2 = true) (peer_info st)
              = (∅ : gmap string peer)).
  { apply map_empty_filter. intros p info Hp Hidle. cbn in Hidle.
    by rewrite (H p info Hp) in Hidle. }
  rewrite E, map_to_list_empty. reflexivity.
Qed.

Lemma run_idle_settled cls (n : nat) st :
  keep_listening st = true ->
  sweep st = (Returns tt, st) ->
  run cls (replicate n None) st = (Returns tt, st).
Proof.
  intros Hk Hs. induction n as [|n IH]; [reflexivity|].
  cbn [replicate run]. rewrite bind_gets, Hk.
  rewrite (bind_returns _ _ _ _ _ Hs). rewrite bind_ret. exact IH.
Qed.

(** X21.  One sweep is enough.  On a consistent peer table the sweep
    returns, and sweeping again right after it changes nothing; so a
    listening node whose queue stays empty ends any number of iterations of
    [run] in the state the first sweep left. *)
Theorem idle_loop_settles_after_one_sweep
    (cls : node_class) (n : nat) (st : node) :
  consistent st ->
  keep_listening st = true ->
  exists st',
    sweep st = (Returns tt, st')
    /\ sweep st' = (Returns tt, st')
    /\ run cls (replicate (S n) None) st = (Returns tt, st').
Proof.
  intros Hc Hk.
  destruct (sweep_result st Hc) as (st' & Hsweep & Hlook & _).
  assert (Hk' : keep_listening st' = true).
  { pose proof (sweep_frame keep_listening (fun _ _ => eq_refl)
                  (fun _ _ => eq_refl) st) as H.
    rewrite Hsweep in H. cbn [snd] in H. by rewrite H. }
  assert (Hs' : sweep st' = (Returns tt, st')).
  { apply sweep_nothing_idle. intros p info Hp. rewrite Hlook in Hp.
    destruct (peer_info st !! p) as [i|]; [|done].
    destruct (idle i) eqn:Hi; [done|]. by injection Hp as <-. }
  exists st'. split; [exact Hsweep|]. split; [exact Hs'|].
  cbn [replicate run]. rewrite bind_gets, Hk.
  rewrite (bind_returns _ _ _ _ _ Hsweep). rewrite bind_ret.
  by apply run_idle_settled.
Qed.

(** ** A chain that is rejected *)

Lemma resolve_conflicts_picks st p entry h :
  peer_info st !! p = Some entry ->
  height entry = JNum h ->
  p ∈ peers st ->
  p <> "" ->
  Z.of_nat (length (chain st)) < h ->
  (forall q, q ∈ peers st -> q <> p ->
     exists k, claims (peer_info st) q k /\ k < h) ->
  resolve_conflicts st = (Returns tt, after_send "getdata" Blank p entry st).
Proof.
  intros Hentry Hheight Hp Hne Hgt Hothers.
  assert (Hc : claims (peer_info st) p h) by (by exists entry).
  destruct (scan_peers_spec (peer_info st) (elements (peers st))
              (Z.of_nat (length (chain st))) None)
    as (m & mp & Hscan & Hcase).
  { intros q Hq. apply elem_of_elements in Hq.
    destruct (decide (q = p)) as [->|Hqp]; [by exists h|].
    destruct (Hothers q Hq Hqp) as (k & Hk & _). by exists k. }
  destruct Hcase as [(-> & -> & Hle)|(p' & -> & Hp' & Hc' & _ & Hmax)].
  { exfalso. assert (h <= Z.of_nat (length (chain st))); [|lia].
    apply (Hle p h); [by apply elem_of_elements|done]. }
  assert (p' = p) as ->.
  { destruct (decide (p' = p)) as [|Hpp]; [done|]. exfalso.
    apply elem_of_elements in Hp'.
    destruct (Hothers p' Hp' Hpp) as (k & Hk & Hlt).
    rewrite (claims_functional _ _ _ _ Hc' Hk) in Hmax.
    assert (h <= k); [|lia].
    apply (Hmax p h); [by apply elem_of_elements|done]. }
  unfold resolve_conflicts, bind, gets. rewrite Hscan. simpl.
  rewrite bool_decide_eq_false_2 by done.
  by apply send_to_registered.
Qed.

(** X22.  A peer that serves a longer chain which does not validate is
    asked again.  Take a [chain] frame from a registered peer whose chain
    is longer than the node's own and than the height every other peer
    claims, and which [valid_chain] rejects.  The handler notes the length
    of that chain as the sender's height, keeps its own chain, does not set
    [synced], and conflict resolution, run on the table so updated, sends
    the next [getdata] to the very same peer. *)
Theorem rejected_chain_is_asked_for_again
    (data : envelope) (d : list (string * json)) (c : list json) (tx : json)
    (entry : peer) (st : node) :
  msg_type data = "chain" ->
  message data = Denotes (JDict d) ->
  assoc "chain" d = Some (JList c) ->
  assoc "tx_info" d = Some tx ->
  consistent st ->
  sender data <> "" ->
  peer_info st !! sender data = Some entry ->
  (forall q, q ∈ peers st -> q <> sender data ->
     exists k, claims (peer_info st) q k /\ k < Z.of_nat (length c)) ->
  (length (chain st) < length c)%nat ->
  valid_chain (JList c) = false ->
  handle_data BlockchainNode data st
  = (Returns tt,
     after_send "getdata" Blank (sender data)
       (Peer (peer_identifier entry) (lastrecv entry) (lastsend entry)
          (JNum (Z.of_nat (length c))))
       (note_height (sender data) (JNum (Z.of_nat (length c))) st)).
Proof.
  intros Ht Hm Hc Htx Hcons Hne He Hothers Hlen Hv.
  assert (HN : Node_handle_data data st = (Returns tt, st))
    by (apply Node_handle_data_quiet; rewrite ?Ht, ?Hm; done).
  cbn [handle_data]. unfold BlockchainNode_handle_data.
  rewrite (bind_returns _ _ _ _ _ HN). cbv zeta. rewrite Ht, Hm. pick_branch.
  cbn [loads_message]. rewrite bind_ret.
  rewrite (bind_lift_inr _ _ _ _ (getitem_present _ _ _ Hc)).
  rewrite (bind_lift_inr _ _ _ _ (getitem_present _ _ _ Htx)).
  rewrite bind_gets.
  rewrite (bind_returns _ _ _ _ _ (note_length_run (sender data) c st Hcons)).
  rewrite Hv. unfold note_height. rewrite He.
  apply (resolve_conflicts_picks _ _ _ (Z.of_nat (length c))).
  - cbn [peer_info set_peer_info]. apply lookup_insert_eq.
  - reflexivity.
  - cbn [peers set_peer_info]. rewrite <- Hcons. apply elem_of_dom. eauto.
  - exact Hne.
  - cbn [chain set_peer_info]. lia.
  - cbn [peers peer_info set_peer_info]. intros q Hq Hqs.
    destruct (Hothers q Hq Hqs) as (k & (e & Hk & Hh) & Hlt).
    exists k. split; [|exact Hlt]. exists e.
    split; [|exact Hh]. by rewrite lookup_insert_ne.
Qed.

(** ** Headers for the SPV node *)

Lemma headers_of_Forall2 (blocks hs : list json) :
  Forall2 (fun block h => getitem "header" block = inr h) blocks hs ->
  headers_of blocks = inr hs.
Proof.
  induction 1 as [|block h blocks hs Hh _ IH]; [reflexivity|].
  cbn [headers_of]. by rewrite Hh, IH.
Qed.

Lemma loads_returns m st :
  m <> Malformed -> exists j, loads_message m st = (Returns j, st).
Proof. destruct m as [| |j]; [|done|]; intros _; eexists; reflexivity. Qed.

Lemma handle_getheaders data entry hs st :
  msg_type data = "getheaders" ->
  message data <> Malformed ->
  sender data <> "" ->
  peer_info st !! sender data = Some entry ->
  headers_of (chain st) = inr hs ->
  handle_data BlockchainNode data st
  = (Returns tt, after_send "headers" (headers_payload hs) (sender data) entry st).
Proof.
  intros Ht Hm Hne He Hhs.
  assert (HN : Node_handle_data data st = (Returns tt, st))
    by (apply Node_handle_data_quiet; rewrite ?Ht; done).
  cbn [handle_data]. unfold BlockchainNode_handle_data.
  rewrite (bind_returns _ _ _ _ _ HN). cbv zeta. rewrite Ht. pick_branch.
  destruct (loads_returns _ st Hm) as [j HL]. rewrite (bind_returns _ _ _ _ _ HL).
  rewrite bind_gets. rewrite (bind_lift_inr _ _ _ _ Hhs).
  by apply send_to_registered.
Qed.

Lemma SPVNode_handle_getheaders data entry st :
  msg_type data = "getheaders" ->
  message data <> Malformed ->
  sender data <> "" ->
  peer_info st !! sender data = Some entry ->
  SPVNode_handle_data data st
  = (Returns tt,
     after_send "headers" (headers_payload (chain st)) (sender data) entry st).
Proof.
  intros Ht Hm Hne He.
  assert (HN : Node_handle_data data st = (Returns tt, st))
    by (apply Node_handle_data_quiet; rewrite ?Ht; done).
  unfold SPVNode_handle_data.
  rewrite (bind_returns _ _ _ _ _ HN). cbv zeta. rewrite Ht. pick_branch.
  destruct (loads_returns _ st Hm) as [j HL]. rewrite (bind_returns _ _ _ _ _ HL).
  rewrite bind_gets. by apply send_to_registered.
Qed.

Lemma SPVNode_handle_headers_accepted data d hs st :
  msg_type data = "headers" ->
  message data = Denotes (JDict d) ->
  assoc "headers" d = Some (JList hs) ->
  consistent st ->
  valid_headers (JList hs) = true ->
  SPVNode_handle_data data st
  = (Returns tt,
     set_synced true
       (set_chain hs
          (note_height (sender data) (JNum (Z.of_nat (length hs))) st))).
Proof.
  intros Ht Hm Hh Hcons Hv.
  assert (HN : Node_handle_data data st = (Returns tt, st))
    by (apply Node_handle_data_quiet; rewrite ?Ht, ?Hm; done).
  unfold SPVNode_handle_data.
  rewrite (bind_returns _ _ _ _ _ HN). cbv zeta. rewrite Ht, Hm. pick_branch.
  cbn [loads_message]. rewrite bind_ret.
  rewrite (bind_lift_inr _ _ _ _ (getitem_present _ _ _ Hh)).
  rewrite bind_gets.
  rewrite (bind_returns _ _ _ _ _ (note_length_run (sender data) hs st Hcons)).
  rewrite Hv. rewrite bind_modify. reflexivity.
Qed.

(** X23.  Headers asked for are headers served and, when valid, installed.
    A full node answers a [getheaders] from a registered peer with one
    [headers] frame that carries the header of each block of its chain, in
    order; an SPV node answers it with its chain as it is, which holds
    headers only.  When an SPV node with a consistent peer table handles
    the full node's reply and [valid_headers] accepts the headers, it ends
    with them as its chain and with [synced] set, having noted their
    number as the sender's height and sent nothing. *)
Theorem getheaders_round_trip
    (request : envelope) (entry : peer) (hs : list json) (a b : node) :
  msg_type request = "getheaders" ->
  message request <> Malformed ->
  sender request <> "" ->
  peer_info a !! sender request = Some entry ->
  Forall2 (fun block h => getitem "header" block = inr h) (chain a) hs ->
  consistent b ->
  valid_headers (JList hs) = true ->
  let reply :=
    Envelope "headers" (identifier a) (headers_payload hs) (sender request) in
  handle_data BlockchainNode request a
  = (Returns tt, after_send "headers" (headers_payload hs) (sender request) entry a)
  /\ outbox (after_send "headers" (headers_payload hs) (sender request) entry a)
     = (outbox a ++ [reply])%list
  /\ SPVNode_handle_data request a
     = (Returns tt,
        after_send "headers" (headers_payload (chain a)) (sender request) entry a)
  /\ SPVNode_handle_data reply b
     = (Returns tt,
        set_synced true
          (set_chain hs
             (note_height (identifier a) (JNum (Z.of_nat (length hs))) b))).
Proof.
  intros Ht Hm Hne He Hhs Hc Hv reply.
  split; [apply handle_getheaders; try done; by apply headers_of_Forall2|].
  split; [reflexivity|].
  split; [by apply SPVNode_handle_getheaders|].
  by apply (SPVNode_handle_headers_accepted reply [("headers", JList hs)]).
Qed.

End Engine.

(** ** Closed instances

    The theorems above at the sample data, each with its hypotheses
    discharged by evaluation, and concrete runs of the code that mark where
    a statement stops holding. *)

Local Open Scope string_scope.

Local Abbreviation demo_handle_data :=
  (handle_data sample_digest sample_serialize 0 "0" sample_clock).
Local Abbreviation demo_valid_chain :=
  (valid_chain sample_digest sample_serialize 0 "0").

(** C1, where the code departs from it.  A peer that announced itself under
    the empty identifier with height 5 is in the table of a node whose chain
    has length 1.  The scan selects it, but the test [if max_height_peer:]
    takes the empty identifier for no peer at all: conflict resolution sets
    [synced] and sends nothing, where a [getdata] to the peer with the
    greatest claimed height was due. *)
Lemma resolve_conflicts_empty_identifier :
  let st := (recv sample_clock (demo_handle_data BlockchainNode)
               (Data (version_from "" 5)) (fresh alice [sample_genesis])).2 in
  elements (peers st) = [""]
  /\ (height <$> peer_info st !! "") = Some (JNum 5)
  /\ length (chain st) = 1%nat
  /\ synced st = false
  /\ (resolve_conflicts sample_clock st).1 = Returns tt
  /\ synced (resolve_conflicts sample_clock st).2 = true
  /\ outbox (resolve_conflicts sample_clock st).2 = outbox st.
Proof. vm_compute. repeat split; reflexivity. Qed.

Lemma alice_with_peers_claims (c : list json) (p : string) :
  p ∈ peers (alice_with_peers c) ->
  exists h, claims (peer_info (alice_with_peers c)) p h.
Proof.
  intros Hp. apply elem_of_elements in Hp. vm_compute in Hp.
  apply elem_of_cons in Hp as [->|Hp];
    [|apply elem_of_cons in Hp as [->|Hp]; [|by apply not_elem_of_nil in Hp]].
  - eexists. eexists. split; [vm_compute; reflexivity|reflexivity].
  - eexists. eexists. split; [vm_compute; reflexivity|reflexivity].
Qed.

Lemma alice_with_peers_named (c : list json) : "" ∉ peers (alice_with_peers c).
Proof.
  intros Hp. apply elem_of_elements in Hp. vm_compute in Hp.
  apply elem_of_cons in Hp as [Hp|Hp]; [discriminate|].
  apply elem_of_cons in Hp as [Hp|Hp]; [discriminate|].
  by apply not_elem_of_nil in Hp.
Qed.

(** X14 at Alice with Bob (height 3) and Carol (height 5): holding one block
    she sends a [getdata]; holding five she sets [synced]. *)
Lemma resolve_conflicts_selects_greatest_height_witness :
  let short := alice_with_peers [sample_genesis] in
  let long := alice_with_peers (replicate 5 sample_genesis) in
  (forall p, p ∈ peers short -> exists h, claims (peer_info short) p h)
  /\ (exists p h, p ∈ peers short /\ claims (peer_info short) p h
                  /\ Z.of_nat (length (chain short)) < h)
  /\ (exists p entry,
        resolve_conflicts sample_clock short
        = (Returns tt, after_getdata sample_clock p entry short))
  /\ (forall p h, p ∈ peers long -> claims (peer_info long) p h ->
        h <= Z.of_nat (length (chain long)))
  /\ resolve_conflicts sample_clock long = (Returns tt, set_synced true long).
Proof.
  intros short long.
  pose proof (alice_with_peers_claims [sample_genesis]) as H1.
  pose proof (alice_with_peers_named [sample_genesis]) as H2.
  assert (H3 : exists p h, p ∈ peers short /\ claims (peer_info short) p h
                           /\ Z.of_nat (length (chain short)) < h).
  { exists carol, 5. split; [|split; [|reflexivity]].
    - apply elem_of_elements, list_elem_of_In. vm_compute. tauto.
    - eexists. split; [vm_compute; reflexivity|reflexivity]. }
  assert (H4 : forall p h, p ∈ peers long -> claims (peer_info long) p h ->
                 h <= Z.of_nat (length (chain long))).
  { intros p h Hp (entry & Hentry & Hh).
    apply elem_of_elements in Hp. vm_compute in Hp.
    apply elem_of_cons in Hp as [->|Hp];
      [|apply elem_of_cons in Hp as [->|Hp]; [|by apply not_elem_of_nil in Hp]];
      vm_compute in Hentry; injection Hentry as <-; injection Hh as <-;
      vm_compute; discriminate. }
  split; [exact H1|]. split; [exact H3|]. split.
  - destruct (proj2 (resolve_conflicts_selects_greatest_height sample_clock
                       short H1) H3)
      as (p & entry & h & Hp & _ & _ & _ & _ & Hrun & _).
    exists p, entry. apply Hrun. intros ->. exact (H2 Hp).
  - split; [exact H4|].
    exact (proj1 (resolve_conflicts_selects_greatest_height sample_clock long
                    (alice_with_peers_claims _)) H4).
Defined.

(** C2, where the code departs from it.  Alice holds the valid two-block
    chain and is sent the valid one-block chain; the handler, which tests
    validity and compares no lengths, installs it and sets [synced]: the
    new chain is shorter than the one it replaces. *)
Lemma chain_replaced_by_shorter :
  let st := alice_with_peers [sample_genesis; sample_block1] in
  let st' := (demo_handle_data BlockchainNode
                (chain_from bob alice [sample_genesis]) st).2 in
  demo_valid_chain (JList (chain st)) = true
  /\ chain st' = [sample_genesis]
  /\ synced st' = true
  /\ (length (chain st') < length (chain st))%nat.
Proof. vm_compute. repeat split; (reflexivity || lia). Qed.

(** X15 at Alice holding the genesis block and sent the two-block chain. *)
Lemma chain_replacement_is_valid_witness :
  let data := chain_from carol alice [sample_genesis; sample_block1] in
  let st := alice_with_peers [sample_genesis] in
  msg_type data = "chain"
  /\ chain (demo_handle_data BlockchainNode data st).2 <> chain st
  /\ demo_valid_chain
       (JList (chain (demo_handle_data BlockchainNode data st).2)) = true.
Proof.
  intros data st.
  assert (H1 : msg_type data = "chain") by reflexivity.
  assert (H2 : chain (demo_handle_data BlockchainNode data st).2 <> chain st).
  { intros H. vm_compute in H. discriminate H. }
  split; [exact H1|]. split; [exact H2|].
  exact (proj1 (chain_replacement_is_valid sample_digest sample_serialize
                  0 "0" sample_clock data st H1 H2)).
Defined.

(** C3, where it fails as stated: Bob is registered by his first [version],
    which is answered with [verack] and [version]; his second [version]
    adds no frame to the outbox. *)
Lemma second_version_sends_no_verack :
  let st := (recv sample_clock (demo_handle_data Node)
               (Data (version_from bob 1)) (fresh alice [sample_genesis])).2 in
  let st' := (recv sample_clock (demo_handle_data Node)
                (Data (version_from bob 1)) st).2 in
  elements (peers st) = [bob]
  /\ outbox st = [Envelope "verack" alice Blank bob;
                  Envelope "version" alice
                    (Denotes (JDict [("height", JNum 1)])) bob]
  /\ elements (peers st') = [bob]
  /\ outbox st' = outbox st.
Proof. vm_compute. repeat split; reflexivity. Qed.

(** C3 at Alice receiving a [version] from Bob, whom she knows. *)
Lemma version_from_registered_peer_witness :
  let st := alice_with_peers [sample_genesis] in
  msg_type (version_from bob 3) = "version"
  /\ sender (version_from bob 3) ∈ peers st
  /\ object_payload (message (version_from bob 3))
  /\ demo_handle_data BlockchainNode (version_from bob 3) st = (Returns tt, st).
Proof.
  intros st.
  assert (H1 : msg_type (version_from bob 3) = "version") by reflexivity.
  assert (H2 : sender (version_from bob 3) ∈ peers st).
  { apply elem_of_elements, list_elem_of_In. vm_compute. tauto. }
  assert (H3 : object_payload (message (version_from bob 3))).
  { right. eexists. reflexivity. }
  split; [exact H1|]. split; [exact H2|]. split; [exact H3|].
  exact (proj2 (version_from_registered_peer sample_digest sample_serialize
                  0 "0" sample_clock BlockchainNode (version_from bob 3)
                  JNull st H1 H2 H3)).
Defined.

(** C4 at the three boundary peers of [alice_at_sweep]. *)
Lemma sweep_evicts_exactly_idle_peers_witness :
  consistent alice_at_sweep
  /\ exists st',
       sweep alice_at_sweep = (Returns tt, st')
       /\ is_Some (peer_info st' !! bob)
       /\ peer_info st' !! carol = None
       /\ is_Some (peer_info st' !! "10.0.0.4:d").
Proof.
  assert (H : consistent alice_at_sweep).
  { vm_compute. reflexivity. }
  split; [exact H|].
  destruct (sweep_evicts_exactly_idle_peers alice_at_sweep H)
    as (st' & Hrun & _ & _ & Hall).
  exists st'. split; [exact Hrun|]. split; [|split].
  - destruct (Hall bob (Peer bob 1000 2800 (JNum 1))) as (_ & _ & H1800 & _);
      [vm_compute; reflexivity|].
    destruct H1800 as [E _]; [reflexivity|]. rewrite E. eauto.
  - destruct (Hall carol (Peer carol 1000 2801 (JNum 1))) as (_ & _ & _ & H1801 & _);
      [vm_compute; reflexivity|].
    destruct H1801 as [E _]; [reflexivity|]. exact E.
  - destruct (Hall "10.0.0.4:d" (Peer "10.0.0.4:d" 2000 0 (JNum 1)))
      as (_ & _ & _ & _ & Hnew); [vm_compute; reflexivity|].
    destruct Hnew as [E _]; [reflexivity|]. rewrite E. eauto.
Defined.

(** C5 at Alice holding the genesis block and sent block 1 twice. *)
Lemma addblock_twice_leaves_chain_witness :
  let data := addblock_from bob sample_block1 2 in
  let st := alice_with_peers [sample_genesis] in
  msg_type data = "addblock"
  /\ chain (demo_handle_data BlockchainNode data st).2 <> chain st
  /\ chain (demo_handle_data BlockchainNode data
              (demo_handle_data BlockchainNode data st).2).2
     = chain (demo_handle_data BlockchainNode data st).2.
Proof.
  intros data st.
  assert (H1 : msg_type data = "addblock") by reflexivity.
  assert (H2 : chain (demo_handle_data BlockchainNode data st).2 <> chain st).
  { intros H. vm_compute in H. discriminate H. }
  split; [exact H1|]. split; [exact H2|].
  destruct (addblock_twice_leaves_chain sample_digest sample_serialize
              0 "0" sample_clock data st H1 H2) as (block & _ & _ & Hsame).
  exact Hsame.
Defined.

(** C6, where it fails as stated: an undecodable datagram makes [recv]
    raise to its caller, and the receive loop ends with that error while
    [keep_listening] is still set -- Bob's [version], queued behind the bad
    datagram, is never processed, though on its own it registers him. *)
Lemma undecodable_packet_stops_the_loop :
  let st := fresh alice [sample_genesis] in
  let polled := run sample_digest sample_serialize 0 "0" sample_clock Node in
  (recv sample_clock (demo_handle_data Node) Undecodable st).1
  = Raises JSONDecodeError
  /\ (polled [Some Undecodable; Some (Data (version_from bob 1))] st).1
     = Raises JSONDecodeError
  /\ keep_listening
       (polled [Some Undecodable; Some (Data (version_from bob 1))] st).2 = true
  /\ elements
       (peers (polled [Some Undecodable; Some (Data (version_from bob 1))] st).2)
     = []
  /\ (polled [Some (Data (version_from bob 1))] st).1 = Returns tt
  /\ elements (peers (polled [Some (Data (version_from bob 1))] st).2) = [bob].
Proof. vm_compute. repeat split; reflexivity. Qed.

(** C6 at a [chain] frame for Alice whose payload is not JSON. *)
Lemma recv_malformed_raises_witness :
  let st := alice_with_peers [sample_genesis] in
  let p := Data (Envelope "chain" bob Malformed alice) in
  malformed_for (identifier st) p
  /\ keep_listening st = true
  /\ sweep st = (Returns tt, st)
  /\ recv sample_clock (demo_handle_data BlockchainNode) p st
     = (Raises JSONDecodeError, st)
  /\ run sample_digest sample_serialize 0 "0" sample_clock BlockchainNode
       [Some p; Some (Data (version_from bob 1))] st
     = (Raises JSONDecodeError, st).
Proof.
  intros st p.
  assert (H1 : malformed_for (identifier st) p).
  { split; [reflexivity|]. right. reflexivity. }
  assert (H2 : keep_listening st = true) by reflexivity.
  assert (H3 : sweep st = (Returns tt, st)) by (vm_compute; reflexivity).
  split; [exact H1|]. split; [exact H2|]. split; [exact H3|].
  destruct (recv_malformed_raises sample_digest sample_serialize 0 "0"
              sample_clock BlockchainNode p
              [Some (Data (version_from bob 1))] st st H1) as [Hrecv Hrun].
  split; [exact Hrecv|exact (Hrun H2 H3)].
Defined.

(** C7 at a [chain] frame from Bob to Carol, overheard by Alice. *)
Lemma recv_misaddressed_dropped_witness :
  let st := alice_with_peers [sample_genesis] in
  let data := chain_from bob carol [sample_genesis; sample_block1] in
  target data <> ""
  /\ target data <> identifier st
  /\ recv sample_clock (demo_handle_data BlockchainNode) (Data data) st
     = (Returns tt, st).
Proof.
  intros st data.
  assert (H1 : target data <> "") by discriminate.
  assert (H2 : target data <> identifier st) by discriminate.
  split; [exact H1|]. split; [exact H2|].
  exact (recv_misaddressed_dropped sample_clock
           (demo_handle_data BlockchainNode) data st H1 H2).
Defined.

(** C8 at the hash of the sample genesis header. *)
Lemma proof_of_work_terminates_with_least_witness :
  (exists q, 0 <= q /\ valid_proof sample_digest "ffff0" q = true)
  /\ exists p,
       (exists bound, forall fuel, (bound <= fuel)%nat ->
          proof_of_work sample_digest fuel "ffff0" = Some p)
       /\ 0 <= p
       /\ valid_proof sample_digest "ffff0" p = true
       /\ forall q, 0 <= q -> valid_proof sample_digest "ffff0" q = true -> p <= q.
Proof.
  assert (H : exists q, 0 <= q /\ valid_proof sample_digest "ffff0" q = true).
  { exists 13. split; [lia|vm_compute; reflexivity]. }
  split; [exact H|].
  exact (proof_of_work_terminates_with_least sample_digest "ffff0" H).
Defined.

(** C9, where it fails as stated: a node that has not yet received a
    [verack] is not ready, and a broadcast [heartbeat] from a registered
    peer draws no [heartbeatack] from it. *)
Lemma heartbeat_unanswered_before_verack :
  let st := (recv sample_clock (demo_handle_data Node)
               (Data (version_from bob 1)) (fresh alice [sample_genesis])).2 in
  let st' := (recv sample_clock (demo_handle_data Node)
                (Data (heartbeat_from bob)) st) in
  ready st = false
  /\ elements (peers st) = [bob]
  /\ st'.1 = Returns tt
  /\ outbox st'.2 = outbox st.
Proof. vm_compute. repeat split; reflexivity. Qed.

(** C9 at Alice, ready, receiving Bob's [heartbeat]. *)
Lemma heartbeat_reply_guarded_by_ready_witness :
  let st := alice_with_peers [sample_genesis] in
  msg_type (heartbeat_from bob) = "heartbeat"
  /\ message (heartbeat_from bob) <> Malformed
  /\ target (heartbeat_from bob) = ""
  /\ ready st = true
  /\ outbox (recv sample_clock (demo_handle_data BlockchainNode)
               (Data (heartbeat_from bob)) st).2
     = [Envelope "heartbeatack" alice Blank bob].
Proof.
  intros st.
  assert (H1 : msg_type (heartbeat_from bob) = "heartbeat") by reflexivity.
  assert (H2 : message (heartbeat_from bob) <> Malformed) by discriminate.
  assert (H3 : target (heartbeat_from bob) = "") by reflexivity.
  split; [exact H1|]. split; [exact H2|]. split; [exact H3|].
  split; [reflexivity|].
  exact (heartbeat_reply_guarded_by_ready sample_digest sample_serialize 0 "0"
           sample_clock BlockchainNode (heartbeat_from bob) st H1 H2 H3).
Defined.



(** ** Closed instances of the further properties *)

(** X1 at the first [version] Bob sends to a node that knows nobody. *)
Lemma version_from_new_peer_handshake_witness :
  let st := fresh alice [sample_genesis] in
  let data := version_from bob 3 in
  msg_type data = "version"
  /\ (sender data ∉ peers st)
  /\ sender data <> ""
  /\ claimed_height (message data) = Some (JNum 3)
  /\ demo_handle_data BlockchainNode data st
     = (Returns tt, after_handshake sample_clock bob (JNum 3) st).
Proof.
  intros st data.
  assert (H1 : msg_type data = "version") by reflexivity.
  assert (H2 : sender data ∉ peers st) by apply not_elem_of_empty.
  assert (H3 : sender data <> "") by discriminate.
  assert (H4 : claimed_height (message data) = Some (JNum 3)) by reflexivity.
  split; [exact H1|]. split; [exact H2|]. split; [exact H3|]. split; [exact H4|].
  exact (version_from_new_peer_handshake sample_digest sample_serialize 0 "0"
           sample_clock BlockchainNode data (JNum 3) st H1 H2 H3 H4).
Defined.

(** X2 at a [verack] and a [heartbeat] from Bob, whom the node has never
    registered. *)
Lemma verack_sets_ready_and_enables_heartbeat_witness :
  let st := fresh alice [sample_genesis] in
  let data := Envelope "verack" bob Blank alice in
  let hb := heartbeat_from bob in
  msg_type data = "verack"
  /\ message data <> Malformed
  /\ msg_type hb = "heartbeat"
  /\ message hb <> Malformed
  /\ demo_handle_data BlockchainNode data st = (Returns tt, set_ready true st)
  /\ outbox (demo_handle_data BlockchainNode hb
               (demo_handle_data BlockchainNode data st).2).2
     = [Envelope "heartbeatack" alice Blank bob].
Proof.
  intros st data hb.
  assert (H1 : msg_type data = "verack") by reflexivity.
  assert (H2 : message data <> Malformed) by discriminate.
  assert (H3 : msg_type hb = "heartbeat") by reflexivity.
  assert (H4 : message hb <> Malformed) by discriminate.
  split; [exact H1|]. split; [exact H2|]. split; [exact H3|]. split; [exact H4|].
  exact (verack_sets_ready_and_enables_heartbeat sample_digest sample_serialize
           0 "0" sample_clock BlockchainNode data hb st H1 H2 H3 H4).
Defined.

(** X3 at a [heartbeatack] from Bob, a registered peer. *)
Lemma recv_unhandled_type_only_touches_lastrecv_witness :
  let st := alice_with_peers [sample_genesis] in
  let data := Envelope "heartbeatack" bob Blank alice in
  (msg_type data ∉ handled_types)
  /\ message data <> Malformed
  /\ addressed_to (identifier st) data
  /\ recv sample_clock (demo_handle_data BlockchainNode) (Data data) st
     = (Returns tt,
        set_ticks 9
          (set_peer_info
             (<[bob := Peer bob 1008 1001 (JNum 3)]> (peer_info st)) st)).
Proof.
  intros st data.
  assert (H1 : msg_type data ∉ handled_types).
  { intros H. apply list_elem_of_In in H. vm_compute in H.
    repeat (destruct H as [H|H]; [discriminate H|]). exact H. }
  assert (H2 : message data <> Malformed) by discriminate.
  assert (H3 : addressed_to (identifier st) data) by (right; reflexivity).
  split; [exact H1|]. split; [exact H2|]. split; [exact H3|].
  exact (recv_unhandled_type_only_touches_lastrecv sample_digest
           sample_serialize 0 "0" sample_clock BlockchainNode data st H1 H2 H3).
Defined.

(** X4 at a run that registers a third peer and then polls an empty
    queue. *)
Lemma receive_loop_keeps_peer_table_consistent_witness :
  let st := alice_with_peers [sample_genesis] in
  let polls := [Some (Data (version_from "10.0.0.4:d" 2)); None] in
  consistent st
  /\ consistent
       (run sample_digest sample_serialize 0 "0" sample_clock BlockchainNode
          polls st).2.
Proof.
  intros st polls.
  assert (H : consistent st) by (vm_compute; reflexivity).
  split; [exact H|].
  exact (receive_loop_keeps_peer_table_consistent sample_digest
           sample_serialize 0 "0" sample_clock BlockchainNode polls st H).
Defined.

(** X5 at a [getdata] sent to Bob, heard from at 1000, when the clock
    reads 1008: Bob stays. *)
Lemma send_then_sweep_evicts_silent_peer_witness :
  let st := alice_with_peers [sample_genesis] in
  let entry := Peer bob 1000 1001 (JNum 3) in
  consistent st
  /\ bob <> ""
  /\ peer_info st !! bob = Some entry
  /\ exists st1 st2,
       send sample_clock "getdata" Blank bob st = (Returns tt, st1)
       /\ sweep st1 = (Returns tt, st2)
       /\ outbox st2 = [Envelope "getdata" alice Blank bob]
       /\ peer_info st2 !! bob = Some (Peer bob 1000 1008 (JNum 3))
       /\ bob ∈ peers st2.
Proof.
  intros st entry.
  assert (H1 : consistent st) by (vm_compute; reflexivity).
  assert (H2 : bob <> "") by discriminate.
  assert (H3 : peer_info st !! bob = Some entry) by (vm_compute; reflexivity).
  split; [exact H1|]. split; [exact H2|]. split; [exact H3|].
  destruct (send_then_sweep_evicts_silent_peer sample_clock "getdata" Blank
              bob entry st H1 H2 H3)
    as (st1 & st2 & Hsend & Hsweep & Hout & _ & Hkept).
  exists st1, st2. split; [exact Hsend|]. split; [exact Hsweep|].
  split; [exact Hout|]. apply Hkept. vm_compute. discriminate.
Defined.

(** X6 at a [heartbeatack] from Bob, last sent to at 1001, arriving when
    the clock reads 1008. *)
Lemma recv_then_sweep_keeps_live_peer_witness :
  let st := alice_with_peers [sample_genesis] in
  let data := Envelope "heartbeatack" bob Blank alice in
  let entry := Peer bob 1000 1001 (JNum 3) in
  consistent st
  /\ (msg_type data ∉ handled_types)
  /\ message data <> Malformed
  /\ addressed_to (identifier st) data
  /\ peer_info st !! sender data = Some entry
  /\ Z.of_N (lastsend entry) - Z.of_N (sample_clock (ticks st)) <= 1800
  /\ exists st1 st2,
       recv sample_clock (demo_handle_data BlockchainNode) (Data data) st
       = (Returns tt, st1)
       /\ sweep st1 = (Returns tt, st2)
       /\ peer_info st2 !! bob = Some (Peer bob 1008 1001 (JNum 3))
       /\ bob ∈ peers st2.
Proof.
  intros st data entry.
  assert (H1 : consistent st) by (vm_compute; reflexivity).
  assert (H2 : msg_type data ∉ handled_types).
  { intros H. apply list_elem_of_In in H. vm_compute in H.
    repeat (destruct H as [H|H]; [discriminate H|]). exact H. }
  assert (H3 : message data <> Malformed) by discriminate.
  assert (H4 : addressed_to (identifier st) data) by (right; reflexivity).
  assert (H5 : peer_info st !! sender data = Some entry)
    by (vm_compute; reflexivity).
  assert (H6 : Z.of_N (lastsend entry) - Z.of_N (sample_clock (ticks st)) <= 1800)
    by (vm_compute; discriminate).
  split; [exact H1|]. split; [exact H2|]. split; [exact H3|].
  split; [exact H4|]. split; [exact H5|]. split; [exact H6|].
  exact (recv_then_sweep_keeps_live_peer sample_digest sample_serialize 0 "0"
           sample_clock BlockchainNode data entry st H1 H2 H3 H4 H5 H6).
Defined.


(** X16 at Alice, who holds two blocks, asked by Bob, who holds one. *)
Lemma getdata_chain_round_trip_witness :
  let a := alice_with_peers [sample_genesis; sample_block1] in
  let b := fresh bob [sample_genesis] in
  let request := Envelope "getdata" bob Blank alice in
  let entry := Peer bob 1000 1001 (JNum 3) in
  let reply := Envelope "chain" alice (chain_payload a) bob in
  msg_type request = "getdata"
  /\ message request <> Malformed
  /\ sender request <> ""
  /\ peer_info a !! sender request = Some entry
  /\ consistent b
  /\ demo_valid_chain (JList (chain a)) = true
  /\ demo_handle_data BlockchainNode request a
     = (Returns tt, after_send sample_clock "chain" (chain_payload a) bob entry a)
  /\ outbox (after_send sample_clock "chain" (chain_payload a) bob entry a)
     = [reply]
  /\ demo_handle_data BlockchainNode reply b
     = (Returns tt,
        set_synced true (set_chain [sample_genesis; sample_block1] b)).
Proof.
  intros a b request entry reply.
  assert (H1 : msg_type request = "getdata") by reflexivity.
  assert (H2 : message request <> Malformed) by discriminate.
  assert (H3 : sender request <> "") by discriminate.
  assert (H4 : peer_info a !! sender request = Some entry)
    by (vm_compute; reflexivity).
  assert (H5 : consistent b) by (vm_compute; reflexivity).
  assert (H6 : demo_valid_chain (JList (chain a)) = true)
    by (vm_compute; reflexivity).
  split; [exact H1|]. split; [exact H2|]. split; [exact H3|].
  split; [exact H4|]. split; [exact H5|]. split; [exact H6|].
  exact (getdata_chain_round_trip sample_digest sample_serialize 0 "0"
           sample_clock request entry a b H1 H2 H3 H4 H5 H6).
Defined.

(** X17 at Alice, holding the genesis block, sent the next block by Bob. *)
Lemma valid_addblock_is_appended_silently_witness :
  let st := alice_with_peers [sample_genesis] in
  let data := addblock_from bob sample_block1 2 in
  let d := [("block", sample_block1); ("tx_info", JDict []);
            ("height", JNum 2)] in
  msg_type data = "addblock"
  /\ message data = Denotes (JDict d)
  /\ assoc "block" d = Some sample_block1
  /\ assoc "height" d = Some (JNum 2)
  /\ assoc "tx_info" d = Some (JDict [])
  /\ consistent st
  /\ demo_valid_chain (JList (chain st ++ [sample_block1])) = true
  /\ exists st',
       demo_handle_data BlockchainNode data st = (Returns tt, st')
       /\ chain st' = [sample_genesis; sample_block1]
       /\ outbox st' = []
       /\ synced st' = false.
Proof.
  intros st data d.
  assert (H1 : msg_type data = "addblock") by reflexivity.
  assert (H2 : message data = Denotes (JDict d)) by reflexivity.
  assert (H3 : assoc "block" d = Some sample_block1) by reflexivity.
  assert (H4 : assoc "height" d = Some (JNum 2)) by reflexivity.
  assert (H5 : assoc "tx_info" d = Some (JDict [])) by reflexivity.
  assert (H6 : consistent st) by (vm_compute; reflexivity).
  assert (H7 : demo_valid_chain (JList (chain st ++ [sample_block1])) = true)
    by (vm_compute; reflexivity).
  split; [exact H1|]. split; [exact H2|]. split; [exact H3|].
  split; [exact H4|]. split; [exact H5|]. split; [exact H6|].
  split; [exact H7|].
  destruct (valid_addblock_is_appended_silently sample_digest sample_serialize
              0 "0" sample_clock data d sample_block1 (JNum 2) [] st
              H1 H2 H3 H4 H5 H6 H7)
    as (st' & Hrun & Hst & Hout & Hsync & _).
  exists st'. split; [exact Hrun|]. split; [by rewrite Hst|].
  split; [exact Hout|exact Hsync].
Defined.

(** X18 at a [chain] frame with an empty payload. *)
Lemma incomplete_payload_raises_KeyError_witness :
  let st := alice_with_peers [sample_genesis] in
  let data := Envelope "chain" bob Blank alice in
  ("chain" ∈ required_keys (msg_type data))
  /\ lacks "chain" (message data)
  /\ addressed_to (identifier st) data
  /\ demo_handle_data BlockchainNode data st = (Raises KeyError, st)
  /\ recv sample_clock (demo_handle_data BlockchainNode) (Data data) st
     = (Raises KeyError, st).
Proof.
  intros st data.
  assert (H1 : "chain" ∈ required_keys (msg_type data)).
  { apply list_elem_of_In. vm_compute. tauto. }
  assert (H2 : lacks "chain" (message data)) by exact I.
  assert (H3 : addressed_to (identifier st) data) by (right; reflexivity).
  split; [exact H1|]. split; [exact H2|]. split; [exact H3|].
  exact (incomplete_payload_raises_KeyError sample_digest sample_serialize
           0 "0" sample_clock data "chain" st H1 H2 H3).
Defined.


(** X21 at the three boundary peers of [alice_at_sweep]. *)
Lemma idle_loop_settles_after_one_sweep_witness :
  consistent alice_at_sweep
  /\ keep_listening alice_at_sweep = true
  /\ exists st',
       sweep alice_at_sweep = (Returns tt, st')
       /\ sweep st' = (Returns tt, st')
       /\ run sample_digest sample_serialize 0 "0" sample_clock BlockchainNode
            (replicate 3 None) alice_at_sweep
          = (Returns tt, st').
Proof.
  assert (H1 : consistent alice_at_sweep) by (vm_compute; reflexivity).
  assert (H2 : keep_listening alice_at_sweep = true) by reflexivity.
  split; [exact H1|]. split; [exact H2|].
  exact (idle_loop_settles_after_one_sweep sample_digest sample_serialize 0 "0"
           sample_clock BlockchainNode 2 alice_at_sweep H1 H2).
Defined.

(** X22 at Alice, holding one block, sent six copies of the genesis block
    by Carol: the next [getdata] goes to Carol again. *)
Lemma rejected_chain_is_asked_for_again_witness :
  let st := alice_with_peers [sample_genesis] in
  let c := replicate 6 sample_genesis in
  let d := [("chain", JList c); ("tx_info", JDict [])] in
  let data := chain_from carol alice c in
  let entry := Peer carol 1004 1005 (JNum 5) in
  msg_type data = "chain"
  /\ message data = Denotes (JDict d)
  /\ assoc "chain" d = Some (JList c)
  /\ assoc "tx_info" d = Some (JDict [])
  /\ consistent st
  /\ sender data <> ""
  /\ peer_info st !! sender data = Some entry
  /\ (forall q, q ∈ peers st -> q <> sender data ->
        exists k, claims (peer_info st) q k /\ k < Z.of_nat (length c))
  /\ (length (chain st) < length c)%nat
  /\ demo_valid_chain (JList c) = false
  /\ outbox (demo_handle_data BlockchainNode data st).2
     = [Envelope "getdata" alice Blank carol]
  /\ chain (demo_handle_data BlockchainNode data st).2 = [sample_genesis]
  /\ synced (demo_handle_data BlockchainNode data st).2 = false.
Proof.
  intros st c d data entry.
  assert (H1 : msg_type data = "chain") by reflexivity.
  assert (H2 : message data = Denotes (JDict d)) by reflexivity.
  assert (H3 : assoc "chain" d = Some (JList c)) by reflexivity.
  assert (H4 : assoc "tx_info" d = Some (JDict [])) by reflexivity.
  assert (H5 : consistent st) by (vm_compute; reflexivity).
  assert (H6 : sender data <> "") by discriminate.
  assert (H7 : peer_info st !! sender data = Some entry)
    by (vm_compute; reflexivity).
  assert (H8 : forall q, q ∈ peers st -> q <> sender data ->
                 exists k, claims (peer_info st) q k /\ k < Z.of_nat (length c)).
  { intros q Hq Hne. destruct (decide (q = bob)) as [Hb|Hb].
    - exists 3. split; [|reflexivity]. exists (Peer bob 1000 1001 (JNum 3)).
      split; [|reflexivity]. rewrite Hb. vm_compute. reflexivity.
    - exfalso. apply elem_of_elements in Hq. vm_compute in Hq.
      apply elem_of_cons in Hq as [Hq|Hq]; [by apply Hb|].
      apply elem_of_cons in Hq as [Hq|Hq]; [by apply Hne|].
      by apply not_elem_of_nil in Hq. }
  assert (H9 : (length (chain st) < length c)%nat) by (vm_compute; lia).
  assert (H10 : demo_valid_chain (JList c) = false) by (vm_compute; reflexivity).
  split; [exact H1|]. split; [exact H2|]. split; [exact H3|].
  split; [exact H4|]. split; [exact H5|]. split; [exact H6|].
  split; [exact H7|]. split; [exact H8|]. split; [exact H9|].
  split; [exact H10|].
  rewrite (rejected_chain_is_asked_for_again sample_digest sample_serialize
             0 "0" sample_clock data d c (JDict []) entry st
             H1 H2 H3 H4 H5 H6 H7 H8 H9 H10).
  vm_compute. repeat split; reflexivity.
Defined.

(** X23 at Alice, a full node with two blocks, asked by Bob, an SPV node
    with no header yet. *)
Lemma getheaders_round_trip_witness :
  let a := alice_with_peers [sample_genesis; sample_block1] in
  let b := fresh bob [] in
  let request := Envelope "getheaders" bob Blank alice in
  let entry := Peer bob 1000 1001 (JNum 3) in
  let hs := [sample_header 0 "0" 100; sample_header 1 "ffff0" 3] in
  let reply := Envelope "headers" alice (headers_payload hs) bob in
  msg_type request = "getheaders"
  /\ message request <> Malformed
  /\ sender request <> ""
  /\ peer_info a !! sender request = Some entry
  /\ Forall2 (fun block h => getitem "header" block = inr h) (chain a) hs
  /\ consistent b
  /\ valid_headers sample_digest sample_serialize 0 "0" (JList hs) = true
  /\ demo_handle_data BlockchainNode request a
     = (Returns tt,
        after_send sample_clock "headers" (headers_payload hs) bob entry a)
  /\ outbox (after_send sample_clock "headers" (headers_payload hs) bob entry a)
     = [reply]
  /\ SPVNode_handle_data sample_digest sample_serialize 0 "0" sample_clock
       request a
     = (Returns tt,
        after_send sample_clock "headers" (headers_payload (chain a)) bob
          entry a)
  /\ SPVNode_handle_data sample_digest sample_serialize 0 "0" sample_clock
       reply b
     = (Returns tt, set_synced true (set_chain hs b)).
Proof.
  intros a b request entry hs reply.
  assert (H1 : msg_type request = "getheaders") by reflexivity.
  assert (H2 : message request <> Malformed) by discriminate.
  assert (H3 : sender request <> "") by discriminate.
  assert (H4 : peer_info a !! sender request = Some entry)
    by (vm_compute; reflexivity).
  assert (H5 : Forall2 (fun block h => getitem "header" block = inr h)
                 (chain a) hs).
  { repeat constructor. }
  assert (H6 : consistent b) by (vm_compute; reflexivity).
  assert (H7 : valid_headers sample_digest sample_serialize 0 "0" (JList hs)
               = true) by (vm_compute; reflexivity).
  split; [exact H1|]. split; [exact H2|]. split; [exact H3|].
  split; [exact H4|]. split; [exact H5|]. split; [exact H6|].
  split; [exact H7|].
  exact (getheaders_round_trip sample_digest sample_serialize 0 "0"
           sample_clock request entry hs a b H1 H2 H3 H4 H5 H6 H7).
Defined.
